(** * Zip Packager: the entry registry and the markdown aggregator

    A shallow embedding of [PackagerViewProvider] (src/dist/extension.js,
    the compiled form of the TypeScript class) and the properties of
    its registry and pack operations. Line numbers are those of
    src/dist/extension.js.

    Layout: the JavaScript and Node primitives the provider calls
    ([JsString], [Path], [JsMap], [Fs]), the provider itself
    ([Provider]), the vocabulary of the properties ([Spec]) and a small
    workspace for the concrete cases ([Demo]); then the lemmas. An
    operation runs from start to end: what may come in between at an
    [await] is not part of the embedding. *)

From Stdlib Require Import String Ascii List ZArith Lia DecimalString Permutation.
From stdpp Require Import gmap strings list.

Open Scope string_scope.
Open Scope list_scope.

(* ===================================================================== *)
(** * JavaScript strings and numbers *)
(* ===================================================================== *)

Module JsString.

(** The line feed written [\n] in the source's template literals. *)
Definition nl : string := String "010"%char EmptyString.

(** [Number.prototype.toString()] on an integer value. *)
Definition Number_toString (value : Z) : string :=
  NilZero.string_of_int (Z.to_int value).

Fixpoint repeat_char (n : nat) (c : ascii) : string :=
  match n with
  | O => EmptyString
  | S k => String c (repeat_char k c)
  end.

(** [s.padStart(targetLength, c)] with a one-character pad string. *)
Definition padStart (targetLength : nat) (c : ascii) (s : string) : string :=
  repeat_char (targetLength - String.length s) c +:+ s.

(** [s.slice(1)]: everything after the first code unit. *)
Definition slice1 (s : string) : string :=
  match s with
  | EmptyString => EmptyString
  | String _ rest => rest
  end.

(** [a || b] on strings: the empty string is the only falsy one. *)
Definition or_else (a b : string) : string :=
  match a with
  | EmptyString => b
  | _ => a
  end.

(** [hay.includes(needle)], used to state what a document contains. *)
Fixpoint includes (hay needle : string) : bool :=
  String.prefix needle hay ||
  match hay with
  | EmptyString => false
  | String _ rest => includes rest needle
  end.

(** ASCII [toLowerCase], used only to spell out the specification's
    wording of the language tag. *)
Definition lower_char (c : ascii) : ascii :=
  let n := nat_of_ascii c in
  if (65 <=? n)%nat && (n <=? 90)%nat then ascii_of_nat (n + 32) else c.

Fixpoint toLowerCase (s : string) : string :=
  match s with
  | EmptyString => EmptyString
  | String c rest => String (lower_char c) (toLowerCase rest)
  end.

End JsString.

(* ===================================================================== *)
(** * Node's [path] module (POSIX flavour)

    [path] is Node's library, not code of this repository; the three
    functions the provider calls are written out after Node's documented
    behaviour, on the list of characters of the path. *)
(* ===================================================================== *)

Module Path.

Definition chars := list ascii.

Definition isSlash (c : ascii) : bool := Ascii.eqb c "/".
Definition isDot (c : ascii) : bool := Ascii.eqb c ".".

Fixpoint takeWhile (p : ascii -> bool) (l : chars) : chars :=
  match l with
  | [] => []
  | c :: r => if p c then c :: takeWhile p r else []
  end.

Fixpoint dropWhile (p : ascii -> bool) (l : chars) : chars :=
  match l with
  | [] => []
  | c :: r => if p c then dropWhile p r else l
  end.

(** The last path component, read from the right: trailing slashes are
    skipped, then characters are taken up to the previous slash. The
    result is reversed (last character first). *)
Definition lastPartRev (path : chars) : chars :=
  takeWhile (fun c => negb (isSlash c)) (dropWhile isSlash (rev path)).

(** [path.basename(p)] *)
Definition basename (p : string) : string :=
  string_of_list_ascii (rev (lastPartRev (list_ascii_of_string p))).

(** [path.extname(p)]: from the last dot of the last component to its
    end; empty when the component has no dot, when its only dot is its
    first character, or when the component is [..]. *)
Definition extnameChars (path : chars) : chars :=
  let part := lastPartRev path in
  let ext := takeWhile (fun c => negb (isDot c)) part in
  match dropWhile (fun c => negb (isDot c)) part with
  | [] => []
  | _ :: before =>
      match before with
      | [] => []
      | [c] => if isDot c && bool_decide (ext = []) then [] else "."%char :: rev ext
      | _ => "."%char :: rev ext
      end
  end.

Definition extname (p : string) : string :=
  string_of_list_ascii (extnameChars (list_ascii_of_string p)).

(** The segments between slashes; an empty path has one empty segment. *)
Fixpoint segments (path : chars) : list chars :=
  match path with
  | [] => [[]]
  | c :: r =>
      if isSlash c then [] :: segments r
      else match segments r with
           | seg :: segs => (c :: seg) :: segs
           | [] => [[c]]
           end
  end.

Definition dot : chars := ["."%char].
Definition dotdot : chars := ["."%char; "."%char].

(** One segment of [normalizeString]: empty and [.] segments vanish,
    [..] removes the segment before it (or stays, in a relative path
    that has nothing left to remove), anything else is kept. *)
Definition normalizeStep (allowAboveRoot : bool) (res : list chars) (seg : chars)
  : list chars :=
  if bool_decide (seg = []) || bool_decide (seg = dot) then res
  else if bool_decide (seg = dotdot) then
    match last res with
    | Some top =>
        if bool_decide (top = dotdot)
        then (if allowAboveRoot then res ++ [dotdot] else res)
        else removelast res
    | None => if allowAboveRoot then [dotdot] else res
    end
  else res ++ [seg].

Definition normalizeString (path : chars) (allowAboveRoot : bool) : list chars :=
  foldl (normalizeStep allowAboveRoot) [] (segments path).

Fixpoint joinSegments (segs : list chars) : chars :=
  match segs with
  | [] => []
  | [s] => s
  | s :: rest => s ++ "/"%char :: joinSegments rest
  end.

(** [path.normalize(p)] *)
Definition normalizeChars (path : chars) : chars :=
  match path with
  | [] => dot
  | first :: _ =>
      let isAbsolute := isSlash first in
      let trailingSeparator :=
        match last path with Some c => isSlash c | None => false end in
      let body := joinSegments (normalizeString path (negb isAbsolute)) in
      match body with
      | [] =>
          if isAbsolute then ["/"%char]
          else if trailingSeparator then ["."%char; "/"%char] else dot
      | _ =>
          let body' := if trailingSeparator then body ++ ["/"%char] else body in
          if isAbsolute then "/"%char :: body' else body'
      end
  end.

(** [path.join(a, b)]: the non-empty arguments joined by a slash, then
    normalized; [.] when both are empty. *)
Definition joinChars (a b : chars) : chars :=
  match a, b with
  | [], [] => dot
  | [], _ => normalizeChars b
  | _, [] => normalizeChars a
  | _, _ => normalizeChars (a ++ "/"%char :: b)
  end.

Definition join (a b : string) : string :=
  string_of_list_ascii (joinChars (list_ascii_of_string a) (list_ascii_of_string b)).

End Path.

(* ===================================================================== *)
(** * JavaScript [Map] with string keys

    A [Map] iterates in insertion order, and the panel shows the entries
    in that order, so the map is an association list. [set] on a key
    that is present replaces the value where it stands; on a new key it
    appends. *)
(* ===================================================================== *)

Module JsMap.
Section Ops.
Context {V : Type}.

Definition has (k : string) (m : list (string * V)) : bool :=
  bool_decide (k ∈ m.*1).

Definition set (k : string) (v : V) (m : list (string * V)) : list (string * V) :=
  if has k m
  then (fun kv : string * V => if bool_decide (kv.1 = k) then (k, v) else kv) <$> m
  else m ++ [(k, v)].

(** [delete] returns whether the key was present, and the map without it. *)
Definition delete (k : string) (m : list (string * V)) : bool * list (string * V) :=
  (has k m, filter (fun kv : string * V => kv.1 ≠ k) m).

Definition clear (m : list (string * V)) : list (string * V) := [].

Definition values (m : list (string * V)) : list V := m.*2.

Definition size (m : list (string * V)) : nat := length m.
End Ops.
End JsMap.

(* ===================================================================== *)
(** * The file system seen through fs-extra

    A directory lists names, and each name leads to a node: a regular
    file, a directory, something that is neither (a socket, a device), or
    a name whose [stat] throws (a symbolic link to nothing). [readdir]
    followed by [stat] on each joined path is the list of a directory
    node's items. The paths the provider itself names (an entry's
    [fsPath], the target directory, the output file) are the keys of the
    disk. Operations may throw and may change the disk; a change made
    before a throw stays. *)
(* ===================================================================== *)

Module Fs.

#[local] Unset Elimination Schemes.
(** The content of a file is its text, as [readFile] with ['utf-8']
    returns it. *)
Inductive Node :=
| File (content : string)
| Directory (items : list (string * Node))
| Special
| Broken.
#[local] Set Elimination Schemes.

Abbreviation Disk := (gmap string Node).

Definition IO (A : Type) : Type := Disk -> option A * Disk.

Definition ret {A : Type} (a : A) : IO A := fun d => (Some a, d).

Definition bind {A B : Type} (c : IO A) (k : A -> IO B) : IO B :=
  fun d =>
    match c d with
    | (Some a, d') => k a d'
    | (None, d') => (None, d')
    end.

(** A computation that reads nothing and may throw. *)
Definition lift {A : Type} (o : option A) : IO A := fun d => (o, d).

Declare Scope io_scope.
Delimit Scope io_scope with io.
Notation "x <- c1 ;; c2" := (bind c1 (fun x => c2))
  (at level 100, c1 at next level, right associativity) : io_scope.

(** [fs.readFile(p, 'utf-8')] *)
Definition readFile (p : string) : IO string :=
  fun d =>
    match d !! p with
    | Some (File content) => (Some content, d)
    | _ => (None, d)
    end.

(** [fs.readdir(p)], each name paired with what [stat] finds under it. *)
Definition readdir (p : string) : IO (list (string * Node)) :=
  fun d =>
    match d !! p with
    | Some (Directory items) => (Some items, d)
    | _ => (None, d)
    end.

(** [fs.ensureDir(p)]: creates the directory when nothing is there,
    leaves an existing directory alone, throws on anything else. *)
Definition ensureDir (p : string) : IO unit :=
  fun d =>
    match d !! p with
    | None => (Some tt, <[p := Directory []]> d)
    | Some (Directory _) => (Some tt, d)
    | Some _ => (None, d)
    end.

(** [fs.writeFile(p, content, 'utf-8')]: throws on a directory,
    otherwise the path holds a file with that content. *)
Definition writeFile (p content : string) : IO unit :=
  fun d =>
    match d !! p with
    | Some (Directory _) => (None, d)
    | _ => (Some tt, <[p := File content]> d)
    end.

End Fs.

(* ===================================================================== *)
(** * The provider *)
(* ===================================================================== *)

Module Provider.
Import JsString Fs.

(** ** Data *)

(** ['file' | 'directory'] *)
Inductive EntryType := file | directory.

(** What the provider uses of a [vscode.Uri]: its string form, which
    is the registry key, and its path on disk. *)
Record Uri := { Uri_toString : string; fsPath : string }.

Record Entry := {
  uri : Uri;
  key : string;
  relativePath : string;
  type : EntryType
}.

(** One row of the snapshot posted to the panel. *)
Record Shown := {
  shown_key : string;
  shown_relativePath : string;
  shown_type : EntryType
}.

(** The getters [formatTimestamp] reads from a [Date], in local time;
    [getMonth] counts from zero. *)
Record Date := {
  getFullYear : Z;
  getMonth : Z;
  getDate : Z;
  getHours : Z;
  getMinutes : Z;
  getSeconds : Z
}.

(** The editor during one operation. [Uri_parse] and [fs_stat] are
    [None] when the call throws; [fs_stat] gives the [FileType] bits;
    [getWorkspaceFolder] tells whether a folder was found;
    [workspaceFolders] lists the folders' locations; [now] is
    [new Date()] and [localeNow] its [toLocaleString('zh-CN')]. *)
Record Host := {
  Uri_parse : string -> option Uri;
  getWorkspaceFolder : Uri -> bool;
  fs_stat : Uri -> option Z;
  asRelativePath : Uri -> string;
  workspaceFolders : list Uri;
  now : Date;
  localeNow : string
}.

(** [vscode.FileType] *)
Definition FileType_File : Z := 1.
Definition FileType_Directory : Z := 2.

(** What the user and the panel get to see. [logError] stands for the
    lines written to the output channel; [withProgress] for the
    progress notification and its first report. *)
Inductive Event :=
| showInformationMessage (text : string) (items : list string)
| showWarningMessage (text : string)
| showErrorMessage (text : string)
| postMessage (entries : list Shown) (status : option string)
| logError (message : string)
| withProgress (title message : string).

(** The provider's fields ([view] is whether [this.view] is set),
    together with the disk and everything emitted so far. *)
Record State := {
  view : bool;
  entries : list (string * Entry);
  disk : Disk;
  emitted : list Event
}.

Definition emit (evs : list Event) (st : State) : State :=
  {| view := view st; entries := entries st; disk := disk st;
     emitted := emitted st ++ evs |}.

Definition with_entries (m : list (string * Entry)) (st : State) : State :=
  {| view := view st; entries := m; disk := disk st; emitted := emitted st |}.

Definition with_disk (d : Disk) (st : State) : State :=
  {| view := view st; entries := entries st; disk := d; emitted := emitted st |}.

(** What a message from the panel may carry as [uris]: an array of
    anything, one string, or something else. *)
Inductive RawItem := RawString (s : string) | RawOther.
Inductive RawUris := UrisArray (items : list RawItem) | UrisString (s : string) | UrisOther.

(** How [packEntries] ended, named as the specification names the ends. *)
Inductive PackOutcome :=
| EmptyList
| NoRoot
| NothingToPack
| PackIOError
| Done (outputPath : string).

(** ** notifyEntries, clearAll, removeEntry *)

Definition shown (entry : Entry) : Shown :=
  {| shown_key := key entry;
     shown_relativePath := relativePath entry;
     shown_type := type entry |}.

(** The rows of the registry in insertion order. *)
Definition snapshot (st : State) : list Shown :=
  shown <$> JsMap.values (entries st).

Definition notifyEntries (status : option string) (st : State) : State :=
  if view st then emit [postMessage (snapshot st) status] st else st.

Definition clearAll (st : State) : State :=
  if Nat.eqb (JsMap.size (entries st)) 0
  then emit [showInformationMessage "Zip Packager list is already empty." []] st
  else notifyEntries None (with_entries (JsMap.clear (entries st)) st).

Definition removeEntry (k : string) (st : State) : State :=
  let (deleted, m) := JsMap.delete k (entries st) in
  if negb deleted then st
  else notifyEntries None (with_entries m st).

(** ** handleAdd *)

(** The locals of the loop over the incoming locators. *)
Record AddLoop := {
  seen : gset string;
  resolved : list Entry;
  outsideWorkspace : bool;
  unsupported : bool;
  failures : list Event
}.

Definition addCaught (acc : AddLoop) : AddLoop :=
  {| seen := seen acc; resolved := resolved acc;
     outsideWorkspace := outsideWorkspace acc; unsupported := unsupported acc;
     failures := failures acc ++
       [logError "Failed to add item";
        showErrorMessage
          "Unable to add one or more items. See Zip Packager output for details."] |}.

Definition typeOfStat (statType : Z) : option EntryType :=
  if negb (Z.eqb (Z.land statType FileType_File) 0) then Some file
  else if negb (Z.eqb (Z.land statType FileType_Directory) 0) then Some directory
  else None.

(** One turn of the loop. *)
Definition addOne (h : Host) (registry : list (string * Entry))
    (acc : AddLoop) (raw : RawItem) : AddLoop :=
  match raw with
  | RawOther => acc
  | RawString "" => acc
  | RawString s =>
      match Uri_parse h s with
      | None => addCaught acc
      | Some u =>
          if negb (getWorkspaceFolder h u) then
            {| seen := seen acc; resolved := resolved acc;
               outsideWorkspace := true; unsupported := unsupported acc;
               failures := failures acc |}
          else
            match fs_stat h u with
            | None => addCaught acc
            | Some statType =>
                match typeOfStat statType with
                | None =>
                    {| seen := seen acc; resolved := resolved acc;
                       outsideWorkspace := outsideWorkspace acc; unsupported := true;
                       failures := failures acc |}
                | Some ty =>
                    let rel := asRelativePath h u in
                    let k := Uri_toString u in
                    if JsMap.has k registry || bool_decide (k ∈ seen acc) then acc
                    else
                      {| seen := {[k]} ∪ seen acc;
                         resolved := resolved acc ++
                           [{| uri := u; key := k; relativePath := rel; type := ty |}];
                         outsideWorkspace := outsideWorkspace acc;
                         unsupported := unsupported acc;
                         failures := failures acc |}
                end
            end
      end
  end.

Definition incomingOf (rawUris : RawUris) : list RawItem :=
  match rawUris with
  | UrisArray items => items
  | UrisString s => [RawString s]
  | UrisOther => []
  end.

Definition addLoop (h : Host) (registry : list (string * Entry))
    (incoming : list RawItem) : AddLoop :=
  foldl (addOne h registry)
    {| seen := ∅; resolved := []; outsideWorkspace := false;
       unsupported := false; failures := [] |}
    incoming.

Definition setAll (found : list Entry) (m : list (string * Entry))
  : list (string * Entry) :=
  foldl (fun acc entry => JsMap.set (key entry) entry acc) m found.

Definition handleAdd (h : Host) (rawUris : RawUris) (st : State) : State :=
  let incoming := incomingOf rawUris in
  if Nat.eqb (length incoming) 0 then st
  else
    let r := addLoop h (entries st) incoming in
    let st1 := emit (failures r) st in
    let st2 := with_entries (setAll (resolved r) (entries st1)) st1 in
    let st3 := if outsideWorkspace r
               then emit [showWarningMessage "Only workspace files or folders can be added."] st2
               else st2 in
    let st4 := if unsupported r
               then emit [showWarningMessage "Only files and folders are supported."] st3
               else st3 in
    if Nat.ltb 0 (length (resolved r))
    then notifyEntries (Some "Items added.") st4
    else st4.

(** ** formatTimestamp *)

Definition pad (value : Z) : string :=
  padStart 2 "0" (Number_toString value).

Definition formatTimestamp (date : Date) : string :=
  Number_toString (getFullYear date) +:+ pad (getMonth date + 1) +:+ pad (getDate date)
  +:+ "-" +:+ pad (getHours date) +:+ pad (getMinutes date) +:+ pad (getSeconds date).

(** ** createArchive and addDirectoryToMarkdown *)

(** [path.extname(name).slice(1) || 'txt'] *)
Definition langTag (name : string) : string :=
  or_else (slice1 (Path.extname name)) "txt".

(** The two template literals appended for one file. *)
Definition heading (rel : string) : string :=
  "## 文件: `" +:+ rel +:+ "`" +:+ nl +:+ nl.

Definition fence (ext content : string) : string :=
  "```" +:+ ext +:+ nl +:+ content +:+ nl +:+ "```" +:+ nl +:+ nl +:+ "---" +:+ nl +:+ nl.

Definition fileSection (rel ext content : string) : string :=
  heading rel +:+ fence ext content.

(** One turn of the loop of [addDirectoryToMarkdown] over the items of
    a directory: what the item adds to [content]. On a directory the
    function calls itself with the joined relative path, and the loop
    of that call runs over the items of the node. *)
Fixpoint addItem (relativePath item : string) (node : Node) {struct node}
  : option string :=
  let itemRelativePath := Path.join relativePath item in
  match node with
  | Broken => None
  | Directory items =>
      (fix loop (content : string) (items : list (string * Node)) : option string :=
         match items with
         | [] => Some content
         | (name, child) :: rest =>
             match addItem itemRelativePath name child with
             | Some more => loop (content +:+ more) rest
             | None => None
             end
         end) "" items
  | File fileContent =>
      Some (fileSection itemRelativePath (langTag item) fileContent)
  | Special => Some ""
  end.

(** The loop itself, from the content gathered so far. *)
Fixpoint addItems (relativePath content : string) (items : list (string * Node))
  : option string :=
  match items with
  | [] => Some content
  | (name, child) :: rest =>
      match addItem relativePath name child with
      | Some more => addItems relativePath (content +:+ more) rest
      | None => None
      end
  end.

Definition addDirectoryToMarkdown (dirPath relativePath : string) : IO string :=
  (items <- readdir dirPath ;;
   lift (addItems relativePath "" items))%io.

Definition documentHeader (h : Host) : string :=
  "# 文件集合" +:+ nl +:+ nl +:+ "生成时间: " +:+ localeNow h +:+ nl +:+ nl
  +:+ "---" +:+ nl +:+ nl.

(** One turn of the loop of [createArchive] over the entries. *)
Definition archiveEntry (entry : Entry) (mdContent : string) : IO string :=
  let p := fsPath (uri entry) in
  match type entry with
  | directory =>
      (dirContent <- addDirectoryToMarkdown p (relativePath entry) ;;
       ret (mdContent +:+ dirContent))%io
  | file =>
      (content <- readFile p ;;
       ret (mdContent +:+ fileSection (relativePath entry)
                            (langTag (relativePath entry)) content))%io
  end.

Fixpoint archiveEntries (kept : list Entry) (mdContent : string) : IO string :=
  match kept with
  | [] => ret mdContent
  | entry :: rest =>
      (mdContent' <- archiveEntry entry mdContent ;;
       archiveEntries rest mdContent')%io
  end.

Definition targetDirOf (folder : Uri) : string :=
  Path.join (fsPath folder) "search".

Definition createArchive (h : Host) (folder : Uri) (kept : list Entry) : IO string :=
  let targetDir := targetDirOf folder in
  (_ <- ensureDir targetDir ;;
   let timestamp := formatTimestamp (now h) in
   let mdPath := Path.join targetDir ("bundle-" +:+ timestamp +:+ ".md") in
   mdContent <- archiveEntries kept (documentHeader h) ;;
   _ <- writeFile mdPath mdContent ;;
   ret mdPath)%io.

(** ** packEntries *)

Definition exists_now (h : Host) (entry : Entry) : bool :=
  match fs_stat h (uri entry) with
  | Some _ => true
  | None => false
  end.

Definition deleteAll (lost : list Entry) (m : list (string * Entry))
  : list (string * Entry) :=
  foldl (fun acc entry => (JsMap.delete (key entry) acc).2) m lost.

Definition packEntries (h : Host) (st : State) : PackOutcome * State :=
  if Nat.eqb (JsMap.size (entries st)) 0 then
    (EmptyList,
     emit [showInformationMessage "Add files or folders before packaging." []] st)
  else
    match head (workspaceFolders h) with
    | None =>
        (NoRoot, emit [showErrorMessage "Open a workspace folder to use Zip Packager."] st)
    | Some workspaceFolder =>
        let all := JsMap.values (entries st) in
        let existing := List.filter (exists_now h) all in
        let missing := List.filter (fun entry => negb (exists_now h entry)) all in
        let st1 := with_entries (deleteAll missing (entries st)) st in
        let st2 :=
          if Nat.ltb 0 (length missing)
          then emit [showWarningMessage
                       ("Skipped " +:+ Number_toString (Z.of_nat (length missing))
                        +:+ " missing item(s).")]
                 (notifyEntries None st1)
          else st1 in
        if Nat.eqb (length existing) 0 then
          (NothingToPack,
           emit [showErrorMessage "No valid items remain for packaging."]
             (notifyEntries None st2))
        else
          let st3 := emit [withProgress "Creating markdown file..." "Preparing entries"] st2 in
          match createArchive h workspaceFolder existing (disk st3) with
          | (Some outputPath, d) =>
              (Done outputPath,
               emit [showInformationMessage
                       ("Created " +:+ Path.basename outputPath +:+ ".") ["Open File"]]
                 (notifyEntries None (with_disk d st3)))
          | (None, d) =>
              (PackIOError,
               emit [logError "Packaging failed";
                     showErrorMessage
                       "Failed to create markdown file. Check Zip Packager output for details."]
                 (with_disk d st3))
          end
    end.

(** ** The messages of the panel *)

Inductive Message :=
| MsgAdd (uris : RawUris)
| MsgRemove (key : string)
| MsgClear
| MsgPack
| MsgOther.

(** The listener registered in [resolveWebviewView], under the editor
    of the time the message arrives. *)
Definition onDidReceiveMessage (st : State) (m : Host * Message) : State :=
  match m.2 with
  | MsgAdd uris => handleAdd m.1 uris st
  | MsgRemove k => removeEntry k st
  | MsgClear => clearAll st
  | MsgPack => (packEntries m.1 st).2
  | MsgOther => st
  end.

End Provider.

(* ===================================================================== *)
(** * Vocabulary of the properties *)
(* ===================================================================== *)

Module Spec.
Import JsString Fs Provider.

(** A registry as the provider builds it: no key twice, and every entry
    stored under its own [key]. *)
Definition keyed (m : list (string * Entry)) : Prop :=
  ∀ k e, (k, e) ∈ m → key e = k.

Definition wf (m : list (string * Entry)) : Prop :=
  NoDup m.*1 ∧ keyed m.

(** What holds of the locals of the loop of [handleAdd] after any
    number of turns: the entries found have distinct keys, the keys
    seen are theirs, and none is a key of the registry. *)
Record loop_inv (registry : list (string * Entry)) (acc : AddLoop) : Prop := {
  inv_nodup : NoDup (key <$> resolved acc);
  inv_seen : ∀ k, k ∈ (key <$> resolved acc) ↔ k ∈ seen acc;
  inv_fresh : ∀ k, k ∈ (key <$> resolved acc) → k ∉ registry.*1
}.

(** The entry a locator stands for when it passes every check of the
    loop: a string that is not empty and parses, inside a workspace
    folder, whose [stat] returns a file or a directory. *)
Definition candidate (h : Host) (raw : RawItem) : option Entry :=
  match raw with
  | RawOther => None
  | RawString "" => None
  | RawString s =>
      match Uri_parse h s with
      | None => None
      | Some u =>
          if getWorkspaceFolder h u then
            match fs_stat h u with
            | None => None
            | Some statType =>
                match typeOfStat statType with
                | None => None
                | Some ty =>
                    Some {| uri := u; key := Uri_toString u;
                            relativePath := asRelativePath h u; type := ty |}
                end
            end
          else None
      end
  end.

(** The add of the specification: of the entries found, skip those
    whose key is taken, by the registry or by an entry before them. *)
Fixpoint skipPresent (taken : list string) (found : list Entry) : list Entry :=
  match found with
  | [] => []
  | e :: rest =>
      if bool_decide (key e ∈ taken) then skipPresent taken rest
      else e :: skipPresent (taken ++ [key e]) rest
  end.

(** Any messages in a row. *)
Definition receiveAll (messages : list (Host * Message)) (st : State) : State :=
  foldl onDidReceiveMessage st messages.

(** Several [add] messages in a row, each under the editor of its time. *)
Definition addAll (batches : list (Host * RawUris)) (st : State) : State :=
  foldl (fun acc b => handleAdd b.1 b.2 acc) st batches.

(** The texts of the warnings among some events. *)
Definition warnings (evs : list Event) : list string :=
  omap (fun ev => match ev with showWarningMessage text => Some text | _ => None end) evs.

(** The snapshots posted among some events. *)
Definition refreshes (evs : list Event) : list (list Shown * option string) :=
  omap (fun ev => match ev with postMessage rows status => Some (rows, status) | _ => None end)
    evs.

(** The entries of the registry that the check of [packEntries] finds,
    and those it does not find. *)
Definition existingNow (h : Host) (st : State) : list Entry :=
  List.filter (exists_now h) (JsMap.values (entries st)).

Definition missingNow (h : Host) (st : State) : list Entry :=
  List.filter (fun entry => negb (exists_now h entry)) (JsMap.values (entries st)).

(** [doc] contains [part]. *)
Definition contains (doc part : string) : Prop :=
  ∃ before after, doc = before +:+ part +:+ after.


(** [s] has no character [c]. *)
Definition lacks (c : ascii) (s : string) : Prop :=
  c ∉ list_ascii_of_string s.

(** A directory prefix: nothing, or something that ends in a slash. *)
Definition dirPrefix (s : string) : Prop :=
  s = "" ∨ ∃ d, s = d +:+ "/".

(** The timestamp in the specification's words: [YYYYMMDD-HHmmss], each
    field in decimal digits, zero-padded to its width. *)
Definition digit (n : Z) : ascii := ascii_of_nat (48 + Z.to_nat (n mod 10)).

Definition digits2 (n : Z) : string :=
  String (digit (n / 10)) (String (digit n) EmptyString).

Definition digits4 (n : Z) : string :=
  String (digit (n / 1000)) (String (digit (n / 100)) (digits2 n)).

Definition specTimestamp (date : Date) : string :=
  digits4 (getFullYear date) +:+ digits2 (getMonth date + 1) +:+ digits2 (getDate date)
  +:+ "-" +:+ digits2 (getHours date) +:+ digits2 (getMinutes date)
  +:+ digits2 (getSeconds date).

(** [p] on every integer from [start], [count] of them. *)
Fixpoint allFrom (p : Z → bool) (start : Z) (count : nat) : bool :=
  match count with
  | O => true
  | S k => p start && allFrom p (start + 1) k
  end.

(** A local time with a four-digit year. *)
Definition civil (date : Date) : Prop :=
  (1000 ≤ getFullYear date ≤ 9999 ∧ 0 ≤ getMonth date ≤ 11 ∧ 1 ≤ getDate date ≤ 31
   ∧ 0 ≤ getHours date ≤ 23 ∧ 0 ≤ getMinutes date ≤ 59 ∧ 0 ≤ getSeconds date ≤ 59)%Z.

(** The files below the items of a directory whose relative path is
    [relativePath], in traversal order: relative path, name, content. *)
Fixpoint filesOfItem (relativePath item : string) (node : Node) {struct node}
  : list (string * string * string) :=
  let itemRelativePath := Path.join relativePath item in
  match node with
  | File content => [(itemRelativePath, item, content)]
  | Directory items =>
      (fix go (items : list (string * Node)) : list (string * string * string) :=
         match items with
         | [] => []
         | (name, child) :: rest => filesOfItem itemRelativePath name child ++ go rest
         end) items
  | Special => []
  | Broken => []
  end.

Fixpoint filesOfItems (relativePath : string) (items : list (string * Node))
  : list (string * string * string) :=
  match items with
  | [] => []
  | (name, child) :: rest =>
      filesOfItem relativePath name child ++ filesOfItems relativePath rest
  end.


(** The sections of a list of files, one after the other. *)
Fixpoint sections (files : list (string * string * string)) : string :=
  match files with
  | [] => ""
  | (rel, name, content) :: rest =>
      fileSection rel (langTag name) content +:+ sections rest
  end.


(** No name below the node has a [stat] that throws. *)
Fixpoint readable (node : Node) : bool :=
  match node with
  | Broken => false
  | Directory items =>
      (fix go (items : list (string * Node)) : bool :=
         match items with
         | [] => true
         | (_, child) :: rest => readable child && go rest
         end) items
  | File _ => true
  | Special => true
  end.


Definition readableItems (items : list (string * Node)) : bool :=
  readable (Directory items).

(** The same tree listed in another order, at any depth: what
    [readdir] is free to do. *)
Inductive reordered : Node → Node → Prop :=
| reordered_refl node : reordered node node
| reordered_dir items items' :
    reorderedItems items items' → reordered (Directory items) (Directory items')
with reorderedItems : list (string * Node) → list (string * Node) → Prop :=
| reordered_nil : reorderedItems [] []
| reordered_skip name node node' rest rest' :
    reordered node node' → reorderedItems rest rest' →
    reorderedItems ((name, node) :: rest) ((name, node') :: rest')
| reordered_swap x y rest : reorderedItems (x :: y :: rest) (y :: x :: rest)
| reordered_trans l1 l2 l3 :
    reorderedItems l1 l2 → reorderedItems l2 l3 → reorderedItems l1 l3.

Scheme reordered_both := Minimality for reordered Sort Prop
  with reorderedItems_both := Minimality for reorderedItems Sort Prop.

(** A plain name: not empty, not [.] or [..], no slash. *)
Definition plain (seg : list ascii) : Prop :=
  seg ≠ [] ∧ seg ≠ Path.dot ∧ seg ≠ Path.dotdot ∧ "/"%char ∉ seg.

(** An absolute, normalized path: a slash, then plain names separated
    by single slashes. *)
Definition normalRoot (p : string) : Prop :=
  ∃ segs, segs ≠ [] ∧ Forall plain segs
          ∧ list_ascii_of_string p = "/"%char :: Path.joinSegments segs.

End Spec.

(* ===================================================================== *)
(** * A small workspace, for the concrete cases *)
(* ===================================================================== *)

Module Demo.
Import JsString Fs Provider.

Definition fileUri (p : string) : Uri :=
  {| Uri_toString := "file://" +:+ p; fsPath := p |}.

(** [stat] as the editor answers it for what is on the disk. *)
Definition statOn (d : Disk) (u : Uri) : option Z :=
  match d !! fsPath u with
  | Some (File _) => Some 1%Z
  | Some (Directory _) => Some 2%Z
  | Some Special => Some 0%Z
  | Some Broken => None
  | None => None
  end.

Definition noon : Date :=
  {| getFullYear := 2024; getMonth := 0; getDate := 5;
     getHours := 9; getMinutes := 3; getSeconds := 7 |}.

(** The editor with the workspace folder [/w] open, over a disk. *)
Definition hostOn (d : Disk) : Host :=
  {| Uri_parse := fun s =>
       if String.prefix "file://" s
       then Some (fileUri (String.substring 7 (String.length s - 7) s))
       else None;
     getWorkspaceFolder := fun u => String.prefix "/w/" (fsPath u);
     fs_stat := statOn d;
     asRelativePath := fun u =>
       String.substring 3 (String.length (fsPath u) - 3) (fsPath u);
     workspaceFolders := [fileUri "/w"];
     now := noon;
     localeNow := "2024/1/5 09:03:07" |}.

Definition tree : list (string * Node) :=
  [("x.txt", File "X"); ("sub", Directory [("y.txt", File "Y")])].


Definition disk0 : Disk :=
  <["/w/a.py" := File "print(1)"]>
    (<["/w/d" := Directory tree]> (<["/w/Makefile" := File "all:"]> ∅)).

Definition started (d : Disk) : State :=
  {| view := true; entries := []; disk := d; emitted := [] |}.

Definition entryD : Entry :=
  {| uri := fileUri "/w/d"; key := "file:///w/d";
     relativePath := "d"; type := directory |}.

Definition entryA : Entry :=
  {| uri := fileUri "/w/a.py"; key := "file:///w/a.py";
     relativePath := "a.py"; type := file |}.

Definition bundlePath : string := "/w/search/bundle-20240105-090307.md".

(** The panel after [a.py] was dropped on it. *)
Definition one : State :=
  handleAdd (hostOn disk0) (UrisArray [RawString "file:///w/a.py"]) (started disk0).

(** The panel after [a.py] and the folder [d] were dropped on it. *)
Definition two : State :=
  handleAdd (hostOn disk0)
    (UrisArray [RawString "file:///w/a.py"; RawString "file:///w/d"]) (started disk0).

(** The same workspace with a regular file named [search] at its root. *)
Definition diskBlocked : Disk := <["/w/search" := File "notes"]> disk0.

Definition blocked : State :=
  handleAdd (hostOn diskBlocked) (UrisArray [RawString "file:///w/a.py"])
    (started diskBlocked).

(** The workspace after [a.py] was deleted, and the panel then. *)
Definition diskLess : Disk := delete "/w/a.py" disk0.

Definition twoLater : State := with_disk diskLess two.

End Demo.

(* ===================================================================== *)
(** * More vocabulary: what becomes of a locator, what a pack writes *)
(* ===================================================================== *)

Module More.
Import JsString Fs Provider Spec.

(** What the loop of [handleAdd] does with one locator: it passes it
    over, a call throws and is caught, it lies outside the workspace,
    it is neither file nor directory, or it stands for an entry. *)
Inductive Fate :=
| Ignored
| Thrown
| Outside
| Unsupported
| Found (entry : Entry).

Definition fate (h : Host) (raw : RawItem) : Fate :=
  match raw with
  | RawOther => Ignored
  | RawString "" => Ignored
  | RawString s =>
      match Uri_parse h s with
      | None => Thrown
      | Some u =>
          if negb (getWorkspaceFolder h u) then Outside
          else
            match fs_stat h u with
            | None => Thrown
            | Some statType =>
                match typeOfStat statType with
                | None => Unsupported
                | Some ty =>
                    Found {| uri := u; key := Uri_toString u;
                             relativePath := asRelativePath h u; type := ty |}
                end
            end
      end
  end.

Definition isThrown (f : Fate) : bool :=
  match f with Thrown => true | _ => false end.
Definition isOutside (f : Fate) : bool :=
  match f with Outside => true | _ => false end.
Definition isUnsupported (f : Fate) : bool :=
  match f with Unsupported => true | _ => false end.
Definition isFound (f : Fate) : bool :=
  match f with Found _ => true | _ => false end.

(** The two events of the [catch] of the loop. *)
Definition caught : list Event :=
  [logError "Failed to add item";
   showErrorMessage
     "Unable to add one or more items. See Zip Packager output for details."].

(** The texts of the error messages among some events. *)
Definition errors (evs : list Event) : list string :=
  omap (fun ev => match ev with showErrorMessage text => Some text | _ => None end) evs.



(** The path a pack writes to. *)
Definition outputPathOf (h : Host) (folder : Uri) : string :=
  Path.join (targetDirOf folder) ("bundle-" +:+ formatTimestamp (now h) +:+ ".md").


(** A timestamp read back: the six fields of [YYYYMMDD-HHmmss]. *)
Definition digitValue (c : ascii) : Z := Z.of_nat (nat_of_ascii c) - 48.

Definition number2 (a b : ascii) : Z := 10 * digitValue a + digitValue b.

Definition readTimestamp (s : string) : option Date :=
  match list_ascii_of_string s with
  | [y1; y2; y3; y4; m1; m2; d1; d2; _; h1; h2; i1; i2; s1; s2] =>
      Some {| getFullYear := 100 * number2 y1 y2 + number2 y3 y4;
              getMonth := number2 m1 m2 - 1;
              getDate := number2 d1 d2;
              getHours := number2 h1 h2;
              getMinutes := number2 i1 i2;
              getSeconds := number2 s1 s2 |}
  | _ => None
  end.

End More.

(* ===================================================================== *)
(** * The life of the provider: activate, resolveWebviewView, dispose

    [activate] makes the provider and registers three commands;
    [resolveWebviewView] attaches a panel and registers the listener of
    its messages; [dispose] detaches the panel and empties the registry.
    The page itself ([getHtml], with a nonce drawn from [Math.random]) is
    passed in as it is. *)
(* ===================================================================== *)

Module Life.
Import JsString Fs Provider.

(** [zipPackager.refresh], [zipPackager.clearAll], [zipPackager.pack] *)
Inductive Command := CmdRefresh | CmdClearAll | CmdPack.

(** The provider, whether a listener for the messages of a panel was
    registered, the page given to the panel, and whether the output
    channel was disposed of. *)
Record Extension := {
  provider : State;
  listening : bool;
  html : option string;
  outputDisposed : bool
}.

Definition with_provider (st : State) (x : Extension) : Extension :=
  {| provider := st; listening := listening x; html := html x;
     outputDisposed := outputDisposed x |}.

(** The provider as its constructor leaves it. *)
Definition activated (d : Disk) : Extension :=
  {| provider := {| view := false; entries := []; disk := d; emitted := [] |};
     listening := false; html := None; outputDisposed := false |}.

Definition refresh (st : State) : State := notifyEntries None st.

Definition resolveWebviewView (page : string) (x : Extension) : Extension :=
  {| provider :=
       notifyEntries None
         {| view := true; entries := entries (provider x);
            disk := disk (provider x); emitted := emitted (provider x) |};
     listening := true;
     html := Some page;
     outputDisposed := outputDisposed x |}.

Definition dispose (x : Extension) : Extension :=
  {| provider :=
       {| view := false; entries := JsMap.clear (entries (provider x));
          disk := disk (provider x); emitted := emitted (provider x) |};
     listening := listening x;
     html := html x;
     outputDisposed := true |}.

Definition executeCommand (h : Host) (c : Command) (st : State) : State :=
  match c with
  | CmdRefresh => refresh st
  | CmdClearAll => clearAll st
  | CmdPack => (packEntries h st).2
  end.

(** What can happen to the extension. A message reaches the provider
    only through a listener, so only after a panel was resolved. *)
Inductive Action :=
| Resolve (page : string)
| Receive (h : Host) (m : Message)
| Execute (h : Host) (c : Command)
| Dispose.

Definition act (x : Extension) (a : Action) : Extension :=
  match a with
  | Resolve page => resolveWebviewView page x
  | Receive h m =>
      if listening x then with_provider (onDidReceiveMessage (provider x) (h, m)) x
      else x
  | Execute h c => with_provider (executeCommand h c (provider x)) x
  | Dispose => dispose x
  end.

Definition run (actions : list Action) (x : Extension) : Extension :=
  foldl act x actions.

Definition isResolve (a : Action) : bool :=
  match a with Resolve _ => true | _ => false end.

Definition isDispose (a : Action) : bool :=
  match a with Dispose => true | _ => false end.

(** The panel is informed: when one is attached, the snapshot posted
    last is the registry as it is now. *)
Definition informed (st : State) : Prop :=
  view st = true →
  ∃ status, last (Spec.refreshes (emitted st)) = Some (snapshot st, status).

(** A step from [st] to [st'] keeps the panel informed: it leaves the
    view as it is, posts nothing without a panel, and with a panel
    either ends its posts with the new snapshot or posts nothing and
    leaves the snapshot as it was. *)
Definition informs (st st' : State) : Prop :=
  view st' = view st
  ∧ ∃ news, Spec.refreshes (emitted st') = Spec.refreshes (emitted st) ++ news
      ∧ (view st = false → news = [])
      ∧ (view st = true →
         match last news with
         | Some post => post.1 = snapshot st'
         | None => snapshot st' = snapshot st
         end).

End Life.

(* ===================================================================== *)
(** * The script of the panel (src/media/packagerView.js, lines 1-115)

    The page has a drop zone, a list, two buttons and a status line. The
    list of locators of a drop is looked at character by character, so
    it is a list of UTF-16 code units; keys and labels are only passed
    on, so they are strings as in the provider. *)
(* ===================================================================== *)

Module Panel.
Import JsString Provider.

(** JavaScript's white space and line terminators, which [trim]
    removes. *)
Definition isWhiteSpace (c : N) : bool :=
  bool_decide (c ∈ [9; 10; 11; 12; 13; 32; 160; 5760; 8192; 8193; 8194; 8195; 8196;
                    8197; 8198; 8199; 8200; 8201; 8202; 8232; 8233; 8239; 8287;
                    12288; 65279]%N).

Fixpoint dropWhile (p : N -> bool) (l : list N) : list N :=
  match l with
  | [] => []
  | c :: r => if p c then dropWhile p r else l
  end.

(** [s.trim()] *)
Definition trim (s : list N) : list N :=
  rev (dropWhile isWhiteSpace (rev (dropWhile isWhiteSpace s))).

(** [s.split('\n')] *)
Fixpoint splitLines (s : list N) : list (list N) :=
  match s with
  | [] => [[]]
  | c :: r =>
      if N.eqb c 10 then [] :: splitLines r
      else match splitLines r with
           | line :: lines => (c :: line) :: lines
           | [] => [[c]]
           end
  end.

Definition nonEmpty (s : list N) : bool :=
  match s with [] => false | _ => true end.

(** [uriList.split('\n').map(line => line.trim()).filter(Boolean)] *)
Definition urisOf (uriList : list N) : list (list N) :=
  List.filter nonEmpty (trim <$> splitLines uriList).

(** What the script posts to the extension. *)
Inductive ToHost :=
| PostAdd (uris : list (list N))
| PostPack
| PostClear
| PostRemove (key : string).

(** What the script may receive: [entries] with or without rows and
    with or without a string as status, [status] with or without a
    text, or anything else. *)
Inductive FromHost :=
| MsgEntries (rows : option (list Shown)) (status : option string)
| MsgStatus (text : option string)
| MsgElse.

(** One [li] of the list. *)
Record Item := {
  badge_className : string;
  badge_textContent : string;
  label_textContent : string;
  remove_dataKey : string
}.

Record Script := {
  entriesList : list Item;
  packButton_disabled : bool;
  statusLine_textContent : string;
  dropZone_hover : bool;
  savedState : option (list Shown);
  hideStatusHandle : option nat;
  timeouts : list nat;
  nextTimeout : nat;
  posted : list ToHost
}.

Definition typeName (t : EntryType) : string :=
  match t with file => "file" | directory => "directory" end.

Definition renderItem (entry : Shown) : Item :=
  {| badge_className := "entry__badge entry__badge--" +:+ typeName (shown_type entry);
     badge_textContent :=
       match shown_type entry with directory => "Folder" | file => "File" end;
     label_textContent := shown_relativePath entry;
     remove_dataKey := shown_key entry |}.

Definition renderEntries (rows : list Shown) (sc : Script) : Script :=
  {| entriesList := renderItem <$> rows;
     packButton_disabled := Nat.eqb (length rows) 0;
     statusLine_textContent := statusLine_textContent sc;
     dropZone_hover := dropZone_hover sc;
     savedState := Some rows;
     hideStatusHandle := hideStatusHandle sc;
     timeouts := timeouts sc;
     nextTimeout := nextTimeout sc;
     posted := posted sc |}.

(** [clearTimeout(handle)] on the pending timeouts. *)
Definition clearTimeout (handle : option nat) (pending : list nat) : list nat :=
  match handle with
  | Some id => List.filter (fun t => negb (Nat.eqb t id)) pending
  | None => pending
  end.

Definition setStatus (text : string) (sc : Script) : Script :=
  let pending := clearTimeout (hideStatusHandle sc) (timeouts sc) in
  match text with
  | "" =>
      {| entriesList := entriesList sc;
         packButton_disabled := packButton_disabled sc;
         statusLine_textContent := text;
         dropZone_hover := dropZone_hover sc;
         savedState := savedState sc;
         hideStatusHandle := hideStatusHandle sc;
         timeouts := pending;
         nextTimeout := nextTimeout sc;
         posted := posted sc |}
  | _ =>
      {| entriesList := entriesList sc;
         packButton_disabled := packButton_disabled sc;
         statusLine_textContent := text;
         dropZone_hover := dropZone_hover sc;
         savedState := savedState sc;
         hideStatusHandle := Some (nextTimeout sc);
         timeouts := pending ++ [nextTimeout sc];
         nextTimeout := S (nextTimeout sc);
         posted := posted sc |}
  end.

Definition clearStatus (sc : Script) : Script :=
  {| entriesList := entriesList sc;
     packButton_disabled := packButton_disabled sc;
     statusLine_textContent := "";
     dropZone_hover := dropZone_hover sc;
     savedState := savedState sc;
     hideStatusHandle := hideStatusHandle sc;
     timeouts := clearTimeout (hideStatusHandle sc) (timeouts sc);
     nextTimeout := nextTimeout sc;
     posted := posted sc |}.

(** The callback of the timeout set by [setStatus], when it is still
    pending. *)
Definition timeout (id : nat) (sc : Script) : Script :=
  if bool_decide (id ∈ timeouts sc) then
    {| entriesList := entriesList sc;
       packButton_disabled := packButton_disabled sc;
       statusLine_textContent := "";
       dropZone_hover := dropZone_hover sc;
       savedState := savedState sc;
       hideStatusHandle := hideStatusHandle sc;
       timeouts := List.filter (fun t => negb (Nat.eqb t id)) (timeouts sc);
       nextTimeout := nextTimeout sc;
       posted := posted sc |}
  else sc.

Definition postMessage (m : ToHost) (sc : Script) : Script :=
  {| entriesList := entriesList sc;
     packButton_disabled := packButton_disabled sc;
     statusLine_textContent := statusLine_textContent sc;
     dropZone_hover := dropZone_hover sc;
     savedState := savedState sc;
     hideStatusHandle := hideStatusHandle sc;
     timeouts := timeouts sc;
     nextTimeout := nextTimeout sc;
     posted := posted sc ++ [m] |}.

Definition hover (b : bool) (sc : Script) : Script :=
  {| entriesList := entriesList sc;
     packButton_disabled := packButton_disabled sc;
     statusLine_textContent := statusLine_textContent sc;
     dropZone_hover := b;
     savedState := savedState sc;
     hideStatusHandle := hideStatusHandle sc;
     timeouts := timeouts sc;
     nextTimeout := nextTimeout sc;
     posted := posted sc |}.

(** The listener of [message]. *)
Definition onMessage (m : FromHost) (sc : Script) : Script :=
  match m with
  | MsgEntries rows status =>
      let sc1 := renderEntries (default [] rows) sc in
      match status with
      | Some "" => clearStatus sc1
      | Some text => setStatus text sc1
      | None => clearStatus sc1
      end
  | MsgStatus text => setStatus (default "" text) sc
  | MsgElse => sc
  end.

(** The listener of [drop]; [data] is [None] without a
    [dataTransfer]. *)
Definition onDrop (data : option (list N)) (sc : Script) : Script :=
  let uris := urisOf (default [] data) in
  let sc1 := hover false sc in
  if Nat.ltb 0 (length uris) then postMessage (PostAdd uris) sc1 else sc1.

(** The listener of [click] on the list, for a click on the remove
    button of the item at [index]. *)
Definition onRemoveClick (index : nat) (sc : Script) : Script :=
  match entriesList sc !! index with
  | Some item =>
      match remove_dataKey item with
      | "" => sc
      | k => postMessage (PostRemove k) sc
      end
  | None => sc
  end.

Inductive DomEvent :=
| DragOver
| DragLeave
| Drop (data : option (list N))
| ClickPack
| ClickClear
| ClickRemove (index : nat)
| ClickList
| Message (m : FromHost)
| Timeout (id : nat).

Definition handle (sc : Script) (ev : DomEvent) : Script :=
  match ev with
  | DragOver => hover true sc
  | DragLeave => hover false sc
  | Drop data => onDrop data sc
  | ClickPack => postMessage PostPack sc
  | ClickClear => postMessage PostClear sc
  | ClickRemove index => onRemoveClick index sc
  | ClickList => sc
  | Message m => onMessage m sc
  | Timeout id => timeout id sc
  end.

(** The script once it has run on a fresh page, with the state the
    editor kept for it. *)
Definition loaded (saved : option (list Shown)) : Script :=
  let fresh :=
    {| entriesList := []; packButton_disabled := true; statusLine_textContent := "";
       dropZone_hover := false; savedState := saved; hideStatusHandle := None;
       timeouts := []; nextTimeout := 0; posted := [] |} in
  match saved with
  | Some rows => renderEntries rows fresh
  | None => fresh
  end.

Definition handleAll (events : list DomEvent) (sc : Script) : Script :=
  foldl handle sc events.

(** The panel given every snapshot the provider posted, in order. *)
Definition deliver (evs : list Event) (sc : Script) : Script :=
  foldl (fun acc ev =>
           match ev with
           | Provider.postMessage rows status => onMessage (MsgEntries (Some rows) status) acc
           | _ => acc
           end) sc evs.

(** A locator as a drop posts it: not empty, no line feed, no white
    space at either end. *)
Definition clean (u : list N) : Prop :=
  u ≠ [] ∧ (10%N ∉ u)
  ∧ (∀ c, head u = Some c → isWhiteSpace c = false)
  ∧ (∀ c, last u = Some c → isWhiteSpace c = false).

(** The list and the button are those of the state kept last. *)
Definition shows (sc : Script) : Prop :=
  entriesList sc = renderItem <$> default [] (savedState sc)
  ∧ packButton_disabled sc = Nat.eqb (length (default [] (savedState sc))) 0.

(** The handle is one the script was given, and a timeout is pending
    exactly for a status on display: the one of the handle. *)
Definition timed (sc : Script) : Prop :=
  (∀ id, hideStatusHandle sc = Some id → id < nextTimeout sc)
  ∧ match statusLine_textContent sc with
    | "" => timeouts sc = []
    | _ => ∃ id, hideStatusHandle sc = Some id ∧ timeouts sc = [id]
    end.

(** The rows the script was given: those of the state kept for it and
    those of the messages it received. *)
Definition rowsOf (ev : DomEvent) : list Shown :=
  match ev with
  | Message (MsgEntries (Some rows) _) => rows
  | _ => []
  end.

Definition rowsGiven (saved : option (list Shown)) (events : list DomEvent) : list Shown :=
  default [] saved ++ concat (rowsOf <$> events).

(** Locators one per line, each line ended by CR LF. *)
Fixpoint uriListOf (uris : list (list N)) : list N :=
  match uris with
  | [] => []
  | u :: rest => u ++ 13%N :: 10%N :: uriListOf rest
  end.

End Panel.

(* ===================================================================== *)
(** * The small workspace again: a second later, a session, a panel *)
(* ===================================================================== *)

Module Demo2.
Import JsString Fs Provider.

Definition later : Date :=
  {| getFullYear := 2024; getMonth := 0; getDate := 5;
     getHours := 9; getMinutes := 3; getSeconds := 8 |}.

(** The editor of [Demo.hostOn], one second later. *)
Definition hostLater (d : Disk) : Host :=
  {| Uri_parse := Uri_parse (Demo.hostOn d);
     getWorkspaceFolder := getWorkspaceFolder (Demo.hostOn d);
     fs_stat := fs_stat (Demo.hostOn d);
     asRelativePath := asRelativePath (Demo.hostOn d);
     workspaceFolders := workspaceFolders (Demo.hostOn d);
     now := later;
     localeNow := "2024/1/5 09:03:08" |}.

(** The editor with no folder open. *)
Definition hostNoFolder (d : Disk) : Host :=
  {| Uri_parse := Uri_parse (Demo.hostOn d);
     getWorkspaceFolder := getWorkspaceFolder (Demo.hostOn d);
     fs_stat := fs_stat (Demo.hostOn d);
     asRelativePath := asRelativePath (Demo.hostOn d);
     workspaceFolders := [];
     now := Demo.noon;
     localeNow := "2024/1/5 09:03:07" |}.

(** A panel is resolved, and [a.py] and the folder [d] are dropped on
    it. *)
Definition session : list Life.Action :=
  [Life.Resolve "<!DOCTYPE html>";
   Life.Receive (Demo.hostOn Demo.disk0)
     (MsgAdd (UrisArray [RawString "file:///w/a.py"; RawString "file:///w/d"]))].

(** The three commands, run from the palette. *)
Definition commands : list Life.Action :=
  [Life.Execute (Demo.hostOn Demo.disk0) Life.CmdPack;
   Life.Execute (Demo.hostOn Demo.disk0) Life.CmdClearAll;
   Life.Execute (Demo.hostOn Demo.disk0) Life.CmdRefresh].

(** The script of the panel of [Demo.two], given what was posted. *)
Definition panelTwo : Panel.Script :=
  Panel.deliver (emitted Demo.two) (Panel.loaded None).

End Demo2.

(* ===================================================================== *)
(** * Facts about the map *)
(* ===================================================================== *)

Module JsMapFacts.
Import JsMap.
Section Facts.
Context {V : Type}.
Implicit Types (m : list (string * V)) (k : string) (v : V).

Lemma has_true k m : has k m = true ↔ k ∈ m.*1.
Proof. unfold has. apply bool_decide_eq_true. Qed.

Lemma has_false k m : has k m = false ↔ k ∉ m.*1.
Proof. unfold has. apply bool_decide_eq_false. Qed.

Lemma size_zero m : Nat.eqb (size m) 0 = true ↔ m = [].
Proof.
  unfold size. rewrite Nat.eqb_eq. split.
  - apply nil_length_inv.
  - intros ->. reflexivity.
Qed.

Lemma set_fresh k v m : k ∉ m.*1 → set k v m = m ++ [(k, v)].
Proof. intros Hk. unfold set. apply has_false in Hk. rewrite Hk. reflexivity. Qed.

Lemma delete_absent k m : k ∉ m.*1 → (delete k m).2 = m.
Proof.
  intros Hk. unfold delete. simpl.
  induction m as [|[k' v'] m IH]; [reflexivity|].
  rewrite fmap_cons in Hk. simpl in Hk. apply not_elem_of_cons in Hk as [Hne Hk].
  rewrite filter_cons_True by (simpl; congruence).
  f_equal. apply IH, Hk.
Qed.

Lemma delete_keys k m : (delete k m).2.*1 = filter (fun k' => k' ≠ k) m.*1.
Proof.
  unfold delete. simpl.
  induction m as [|[k' v'] m IH]; [reflexivity|].
  rewrite fmap_cons. simpl. destruct (decide (k' = k)) as [->|Hne].
  - rewrite !filter_cons_False by (simpl; tauto). apply IH.
  - rewrite !filter_cons_True by (simpl; congruence).
    rewrite fmap_cons. simpl. f_equal. apply IH.
Qed.

Lemma delete_gone k m : k ∉ (delete k m).2.*1.
Proof. rewrite delete_keys. intros [Hk _]%list_elem_of_filter. apply Hk. reflexivity. Qed.

Lemma delete_elem k m kv : kv ∈ (delete k m).2 ↔ kv ∈ m ∧ kv.1 ≠ k.
Proof. unfold delete. simpl. rewrite list_elem_of_filter. tauto. Qed.

Lemma unique_value k v1 v2 m :
  NoDup m.*1 → (k, v1) ∈ m → (k, v2) ∈ m → v1 = v2.
Proof.
  induction m as [|[k' v'] m IH]; intros Hnd H1 H2.
  - apply elem_of_nil in H1. contradiction.
  - rewrite fmap_cons in Hnd. simpl in Hnd. apply NoDup_cons in Hnd as [Hhead Hnd].
    apply elem_of_cons in H1 as [H1|H1]; apply elem_of_cons in H2 as [H2|H2].
    + congruence.
    + inversion H1; subst. exfalso. apply Hhead.
      apply list_elem_of_fmap. exists (k', v2). split; [reflexivity|exact H2].
    + inversion H2; subst. exfalso. apply Hhead.
      apply list_elem_of_fmap. exists (k', v1). split; [reflexivity|exact H1].
    + apply IH; assumption.
Qed.

Lemma delete_NoDup k m : NoDup m.*1 → NoDup (delete k m).2.*1.
Proof. intros Hm. rewrite delete_keys. apply NoDup_filter, Hm. Qed.
End Facts.
End JsMapFacts.

(* ===================================================================== *)
(** * The registry: clearAll and removeEntry *)
(* ===================================================================== *)

Module RegistryFacts.
Import JsString Fs Provider Spec JsMapFacts.

Lemma snapshot_keys st :
  keyed (entries st) → shown_key <$> snapshot st = (entries st).*1.
Proof.
  unfold snapshot, JsMap.values. intros Hk.
  induction (entries st) as [|[k e] m IH]; [reflexivity|].
  rewrite !fmap_cons. simpl. f_equal.
  - apply Hk. left.
  - apply IH. intros k' e' Hin. apply Hk. right. exact Hin.
Qed.

Lemma notifyEntries_entries status st :
  entries (notifyEntries status st) = entries st.
Proof. unfold notifyEntries. destruct (view st); reflexivity. Qed.

Lemma notifyEntries_disk status st :
  disk (notifyEntries status st) = disk st.
Proof. unfold notifyEntries. destruct (view st); reflexivity. Qed.

Lemma rows_filter k (m : list (string * Entry)) :
  keyed m →
  shown <$> (filter (fun kv : string * Entry => kv.1 ≠ k) m).*2
  = filter (fun row => shown_key row ≠ k) (shown <$> m.*2).
Proof.
  intros Hk.
  induction m as [|[k' e] m IH]; [reflexivity|].
  assert (key e = k') as Hke by (apply Hk; left).
  assert (keyed m) as Hm by (intros k'' e'' Hin; apply Hk; right; exact Hin).
  rewrite !fmap_cons. simpl. destruct (decide (k' = k)) as [->|Hne].
  - rewrite !filter_cons_False by (simpl; rewrite ?Hke; tauto). apply IH, Hm.
  - rewrite !filter_cons_True by (simpl; rewrite ?Hke; congruence).
    rewrite !fmap_cons. simpl. f_equal. apply IH, Hm.
Qed.

Lemma removeEntry_entries k st :
  entries (removeEntry k st) = filter (fun kv : string * Entry => kv.1 ≠ k) (entries st).
Proof.
  unfold removeEntry, JsMap.delete.
  destruct (JsMap.has k (entries st)) eqn:Hhas; simpl.
  - unfold notifyEntries. simpl. destruct (view st); reflexivity.
  - apply has_false in Hhas. symmetry. apply (delete_absent k _ Hhas).
Qed.

(** C8: clearing a registry that holds something empties it and posts
    the empty snapshot to the panel; clearing an empty registry leaves
    it empty, posts nothing, and shows the message that the list is
    already empty. Stated for an attached panel. *)
Theorem clearAll_empties_or_reports (st : State) :
  view st = true →
  entries (clearAll st) = []
  ∧ snapshot (clearAll st) = []
  ∧ disk (clearAll st) = disk st
  ∧ emitted (clearAll st) = emitted st ++
      [match entries st with
       | [] => showInformationMessage "Zip Packager list is already empty." []
       | _ :: _ => postMessage [] None
       end].
Proof.
  intros Hview. unfold clearAll.
  destruct (entries st) as [|kv m] eqn:Hm; simpl.
  - unfold snapshot. simpl. rewrite Hm. auto.
  - unfold notifyEntries. simpl. rewrite Hview. simpl. auto.
Qed.

Lemma clearAll_witness :
  view Demo.two = true
  ∧ entries (clearAll Demo.two) = []
  ∧ snapshot (clearAll Demo.two) = []
  ∧ refreshes (emitted (clearAll (clearAll Demo.two)))
    = refreshes (emitted (clearAll Demo.two)).
Proof.
  split; [reflexivity|].
  destruct (clearAll_empties_or_reports Demo.two eq_refl) as (He & Hs & _ & _).
  split; [exact He|]. split; [exact Hs|].
  vm_compute. reflexivity.
Defined.

(** C9 as amended: removing a key deletes the entry stored under it and
    keeps every other entry, in order, so the snapshot that follows has
    no row with that key; the panel is refreshed when an entry was
    deleted, and nothing at all happens when the key was not there. *)
Theorem removeEntry_deletes_and_refreshes_if_present (k : string) (st : State) :
  view st = true →
  keyed (entries st) →
  entries (removeEntry k st) = filter (fun kv : string * Entry => kv.1 ≠ k) (entries st)
  ∧ snapshot (removeEntry k st) = filter (fun row => shown_key row ≠ k) (snapshot st)
  ∧ (k ∉ shown_key <$> snapshot (removeEntry k st))
  ∧ (k ∈ (entries st).*1 →
       emitted (removeEntry k st)
       = (emitted st ++ [postMessage (snapshot (removeEntry k st)) None]))
  ∧ (k ∉ (entries st).*1 → removeEntry k st = st).
Proof.
  intros Hview Hkeyed.
  assert (snapshot (removeEntry k st)
          = filter (fun row => shown_key row ≠ k) (snapshot st)) as Hsnap.
  { unfold snapshot, JsMap.values. rewrite removeEntry_entries.
    apply rows_filter, Hkeyed. }
  split; [apply removeEntry_entries|].
  split; [exact Hsnap|]. split; [|split].
  - rewrite Hsnap. intros Hin. apply list_elem_of_fmap in Hin as (row & -> & Hrow).
    apply list_elem_of_filter in Hrow as [Hne _]. apply Hne. reflexivity.
  - intros Hin. apply has_true in Hin.
    unfold removeEntry, JsMap.delete. rewrite Hin. simpl.
    unfold notifyEntries. simpl. rewrite Hview. reflexivity.
  - intros Hout. apply has_false in Hout.
    unfold removeEntry, JsMap.delete. rewrite Hout. reflexivity.
Qed.


Lemma removeEntry_witness :
  (shown_key <$> snapshot (removeEntry "file:///w/a.py" Demo.two)) = ["file:///w/d"]
  ∧ removeEntry "file:///w/zzz" Demo.two = Demo.two.
Proof.
  assert (keyed (entries Demo.two)) as Hkeyed.
  { intros k e Hin. vm_compute in Hin. apply list_elem_of_In in Hin. simpl in Hin.
    destruct Hin as [Heq|[Heq|[]]]; inversion Heq; reflexivity. }
  split.
  - destruct (removeEntry_deletes_and_refreshes_if_present "file:///w/a.py" Demo.two
                eq_refl Hkeyed) as (_ & -> & _).
    vm_compute. reflexivity.
  - destruct (removeEntry_deletes_and_refreshes_if_present "file:///w/zzz" Demo.two
                eq_refl Hkeyed) as (_ & _ & _ & _ & Hnoop).
    apply Hnoop. apply has_false. vm_compute. reflexivity.
Defined.

Lemma remove_absent_counterexample :
  view Demo.two = true
  ∧ JsMap.has "file:///w/zzz" (entries Demo.two) = false
  ∧ emitted (removeEntry "file:///w/zzz" Demo.two) = emitted Demo.two
  ∧ refreshes (emitted (removeEntry "file:///w/zzz" Demo.two))
    = refreshes (emitted Demo.two).
Proof. vm_compute. auto. Qed.
End RegistryFacts.

(* ===================================================================== *)
(** * The registry: handleAdd *)
(* ===================================================================== *)

Module AddFacts.
Import JsString Fs Provider Spec JsMapFacts.

Section Loop.
Variable h : Host.
Variable registry : list (string * Entry).

Lemma addOne_inv acc raw : loop_inv registry acc → loop_inv registry (addOne h registry acc raw).
Proof.
  intros [Hnd Hseen Hfresh].
  destruct raw as [s|]; [|by constructor].
  destruct s as [|c s]; [by constructor|].
  cbn [addOne].
  destruct (Uri_parse h _) as [u|]; [|by constructor].
  destruct (getWorkspaceFolder h u); simpl; [|by constructor].
  destruct (fs_stat h u) as [ty|]; [|by constructor].
  destruct (typeOfStat ty) as [t|]; [|by constructor].
  destruct (JsMap.has (Uri_toString u) registry) eqn:Hhas; simpl; [by constructor|].
  case_bool_decide as Hin; simpl; [by constructor|].
  apply has_false in Hhas.
  constructor; simpl.
  - rewrite fmap_app. simpl. apply NoDup_app. split; [exact Hnd|].
    split; [|apply NoDup_singleton].
    intros k Hk ->%list_elem_of_singleton. apply Hin, Hseen, Hk.
  - intros k. rewrite fmap_app, elem_of_app, elem_of_union, elem_of_singleton.
    simpl. rewrite list_elem_of_singleton, Hseen. tauto.
  - intros k. rewrite fmap_app, elem_of_app. simpl.
    rewrite list_elem_of_singleton. intros [Hk| ->]; [apply Hfresh, Hk|exact Hhas].
Qed.

Lemma foldl_addOne_inv incoming acc :
  loop_inv registry acc → loop_inv registry (foldl (addOne h registry) acc incoming).
Proof.
  revert acc. induction incoming as [|raw rest IH]; intros acc Hacc; simpl.
  - exact Hacc.
  - apply IH, addOne_inv, Hacc.
Qed.

Lemma addLoop_inv incoming : loop_inv registry (addLoop h registry incoming).
Proof.
  apply foldl_addOne_inv. constructor; simpl.
  - constructor.
  - intros k. rewrite elem_of_nil. split; [contradiction|apply not_elem_of_empty].
  - intros k Hk. apply elem_of_nil in Hk. contradiction.
Qed.

(** A locator whose key the registry already holds adds nothing. *)
Lemma addOne_present acc raw :
  (∀ s u, raw = RawString s → Uri_parse h s = Some u →
          Uri_toString u ∈ registry.*1) →
  resolved (addOne h registry acc raw) = resolved acc.
Proof.
  intros Hpresent.
  destruct raw as [s|]; [|reflexivity].
  destruct s as [|c s]; [reflexivity|].
  cbn [addOne].
  destruct (Uri_parse h _) as [u|] eqn:Hparse; [|reflexivity].
  destruct (getWorkspaceFolder h u); simpl; [|reflexivity].
  destruct (fs_stat h u) as [ty|]; [|reflexivity].
  destruct (typeOfStat ty) as [t|]; [|reflexivity].
  assert (JsMap.has (Uri_toString u) registry = true) as ->.
  { apply has_true. eapply Hpresent; [reflexivity|exact Hparse]. }
  reflexivity.
Qed.

Lemma foldl_addOne_present incoming acc :
  (∀ s u, RawString s ∈ incoming → Uri_parse h s = Some u →
          Uri_toString u ∈ registry.*1) →
  resolved (foldl (addOne h registry) acc incoming) = resolved acc.
Proof.
  revert acc. induction incoming as [|raw rest IH]; intros acc Hpresent; simpl.
  - reflexivity.
  - rewrite IH.
    + apply addOne_present. intros s u -> Hparse.
      eapply Hpresent; [left|exact Hparse].
    + intros s u Hin Hparse. eapply Hpresent; [right; exact Hin|exact Hparse].
Qed.

(** The loop finds what the specification's add finds. *)
Lemma foldl_addOne_skipPresent incoming acc :
  (∀ k, k ∈ (key <$> resolved acc) ↔ k ∈ seen acc) →
  resolved (foldl (addOne h registry) acc incoming)
  = resolved acc
    ++ skipPresent (registry.*1 ++ (key <$> resolved acc)) (omap (candidate h) incoming).
Proof.
  revert acc. induction incoming as [|raw rest IH]; intros acc Hseen.
  { simpl. rewrite app_nil_r. reflexivity. }
  cbn [foldl omap list_omap].
  assert (∀ acc', resolved acc' = resolved acc → seen acc' = seen acc →
            resolved (foldl (addOne h registry) acc' rest)
            = resolved acc
              ++ skipPresent (registry.*1 ++ (key <$> resolved acc))
                   (omap (candidate h) rest)) as Hskip.
  { intros acc' Hres Hsn. rewrite IH; rewrite Hres; [reflexivity|].
    rewrite Hsn. exact Hseen. }
  destruct raw as [s|]; [|apply Hskip; reflexivity].
  destruct s as [|c s]; [apply Hskip; reflexivity|].
  cbn [addOne candidate].
  destruct (Uri_parse h _) as [u|]; [|apply Hskip; reflexivity].
  destruct (getWorkspaceFolder h u); cbn [negb]; [|apply Hskip; reflexivity].
  destruct (fs_stat h u) as [ty|]; [|apply Hskip; reflexivity].
  destruct (typeOfStat ty) as [t|]; [|apply Hskip; reflexivity].
  cbn [skipPresent key].
  destruct (JsMap.has (Uri_toString u) registry) eqn:Hhas; cbn [orb].
  - apply has_true in Hhas.
    rewrite bool_decide_eq_true_2 by (apply elem_of_app; left; exact Hhas).
    apply Hskip; reflexivity.
  - apply has_false in Hhas. case_bool_decide as Hin.
    + rewrite bool_decide_eq_true_2
        by (apply elem_of_app; right; apply Hseen, Hin).
      apply Hskip; reflexivity.
    + rewrite bool_decide_eq_false_2.
      2: { intros [Hreg|Hres]%elem_of_app; [exact (Hhas Hreg)|].
           apply Hin, Hseen, Hres. }
      rewrite IH.
      * cbn [resolved]. rewrite fmap_app, <- !app_assoc. reflexivity.
      * intros k. cbn [resolved seen].
        rewrite fmap_app, elem_of_app, elem_of_union, elem_of_singleton.
        simpl. rewrite list_elem_of_singleton, Hseen. tauto.
Qed.

Lemma addLoop_skipPresent incoming :
  resolved (addLoop h registry incoming)
  = skipPresent registry.*1 (omap (candidate h) incoming).
Proof.
  unfold addLoop. rewrite foldl_addOne_skipPresent.
  - simpl. rewrite app_nil_r. reflexivity.
  - intros k. simpl. rewrite elem_of_nil. split; [contradiction|apply not_elem_of_empty].
Qed.
End Loop.

(** Setting entries under keys that are new and distinct appends them. *)
Lemma setAll_fresh (found : list Entry) (m : list (string * Entry)) :
  NoDup (key <$> found) →
  (∀ k, k ∈ (key <$> found) → k ∉ m.*1) →
  setAll found m = m ++ ((fun e => (key e, e)) <$> found).
Proof.
  revert m. induction found as [|e rest IH]; intros m Hnd Hfresh.
  - simpl. rewrite app_nil_r. reflexivity.
  - rewrite fmap_cons in Hnd. apply NoDup_cons in Hnd as [Hhead Hrest].
    unfold setAll in *. simpl.
    rewrite set_fresh by (apply Hfresh; rewrite fmap_cons; left).
    rewrite IH.
    + rewrite <- app_assoc. reflexivity.
    + exact Hrest.
    + intros k Hk. rewrite fmap_app, elem_of_app. simpl.
      rewrite list_elem_of_singleton. intros [Hin| ->].
      * revert Hin. apply Hfresh. rewrite fmap_cons. right. exact Hk.
      * apply Hhead, Hk.
Qed.

Lemma handleAdd_entries h rawUris st :
  entries (handleAdd h rawUris st)
  = setAll (resolved (addLoop h (entries st) (incomingOf rawUris))) (entries st).
Proof.
  unfold handleAdd.
  destruct (incomingOf rawUris) as [|raw rest] eqn:Hin; [reflexivity|].
  cbn [length Nat.eqb].
  set (r := addLoop h (entries st) (raw :: rest)).
  destruct (outsideWorkspace r), (unsupported r),
    (Nat.ltb 0 (length (resolved r)));
    rewrite ?RegistryFacts.notifyEntries_entries; reflexivity.
Qed.

(** What one [add] does to the registry: it appends entries under keys
    that are new and distinct, each stored under its own key. *)
Lemma handleAdd_appends h rawUris st :
  ∃ added,
    entries (handleAdd h rawUris st) = entries st ++ added
    ∧ NoDup added.*1
    ∧ (∀ k, k ∈ added.*1 → k ∉ (entries st).*1)
    ∧ keyed added.
Proof.
  set (r := addLoop h (entries st) (incomingOf rawUris)).
  destruct (addLoop_inv h (entries st) (incomingOf rawUris)) as [Hnd _ Hfresh].
  fold r in Hnd, Hfresh.
  exists ((fun e => (key e, e)) <$> resolved r).
  assert (((fun e => (key e, e)) <$> resolved r).*1 = key <$> resolved r) as Hkeys.
  { rewrite <- list_fmap_compose. reflexivity. }
  rewrite Hkeys. split; [|split; [exact Hnd|split; [exact Hfresh|]]].
  - rewrite handleAdd_entries. apply setAll_fresh; assumption.
  - intros k e Hin. apply list_elem_of_fmap in Hin as (e' & Heq & _).
    inversion Heq. reflexivity.
Qed.

Lemma handleAdd_NoDup h rawUris st :
  NoDup (entries st).*1 → NoDup (entries (handleAdd h rawUris st)).*1.
Proof.
  intros Hnd.
  destruct (handleAdd_appends h rawUris st) as (added & -> & Hnd' & Hfresh & _).
  rewrite fmap_app. apply NoDup_app. split; [exact Hnd|]. split; [|exact Hnd'].
  intros k Hk Hk'. exact (Hfresh k Hk' Hk).
Qed.

Lemma handleAdd_wf h rawUris st :
  wf (entries st) → wf (entries (handleAdd h rawUris st)).
Proof.
  intros [Hnd Hkeyed].
  destruct (handleAdd_appends h rawUris st) as (added & -> & Hnd' & Hfresh & Hkeyed').
  split.
  - rewrite fmap_app. apply NoDup_app. split; [exact Hnd|]. split; [|exact Hnd'].
    intros k Hk Hk'. exact (Hfresh k Hk' Hk).
  - intros k e Hin. apply elem_of_app in Hin as [Hin|Hin].
    + apply Hkeyed, Hin.
    + apply Hkeyed', Hin.
Qed.

Lemma addAll_wf batches st : wf (entries st) → wf (entries (addAll batches st)).
Proof.
  revert st. induction batches as [|[h rawUris] rest IH]; intros st Hwf.
  - exact Hwf.
  - change (wf (entries (addAll rest (handleAdd h rawUris st)))).
    apply IH, handleAdd_wf, Hwf.
Qed.

(** C1: whatever is added, in whatever batches, the registry never
    holds a key twice. An add appends, in their order, the entries of
    the locators that pass the checks and whose key is neither in the
    registry nor the key of a locator before them in the batch; it
    leaves the entries that were there as they were. When every
    locator of a batch resolves to a key the registry already holds,
    the registry stays exactly as it was. *)
Theorem add_never_duplicates_a_key (batches : list (Host * RawUris)) (st : State) :
  NoDup (entries st).*1 →
  NoDup (entries (addAll batches st)).*1
  ∧ (∀ h rawUris,
       entries (handleAdd h rawUris st)
       = entries st ++
           ((fun e => (key e, e))
              <$> skipPresent (entries st).*1 (omap (candidate h) (incomingOf rawUris)))
       ∧ NoDup (entries (handleAdd h rawUris st)).*1)
  ∧ (∀ h items,
       (∀ s u, RawString s ∈ items → Uri_parse h s = Some u →
               Uri_toString u ∈ (entries st).*1) →
       entries (handleAdd h (UrisArray items) st) = entries st).
Proof.
  intros Hnd. split; [|split].
  - revert st Hnd. induction batches as [|[h rawUris] rest IH]; intros st Hnd.
    + exact Hnd.
    + change (NoDup (entries (addAll rest (handleAdd h rawUris st))).*1).
      apply IH, handleAdd_NoDup, Hnd.
  - intros h rawUris. split; [|apply handleAdd_NoDup, Hnd].
    destruct (addLoop_inv h (entries st) (incomingOf rawUris)) as [Hnd' _ Hfresh].
    rewrite handleAdd_entries, setAll_fresh by assumption.
    rewrite addLoop_skipPresent. reflexivity.
  - intros h items Hpresent.
    rewrite handleAdd_entries. simpl. unfold addLoop.
    rewrite foldl_addOne_present by exact Hpresent. reflexivity.
Qed.

Lemma add_witness :
  NoDup (entries Demo.two).*1
  ∧ entries (handleAdd (Demo.hostOn Demo.disk0)
               (UrisArray [RawString "file:///w/a.py"; RawString "file:///w/a.py"]) Demo.two)
    = entries Demo.two.
Proof.
  assert (NoDup (entries Demo.two).*1) as Hnd.
  { apply handleAdd_NoDup. constructor. }
  split; [exact Hnd|].
  destruct (add_never_duplicates_a_key [] Demo.two Hnd) as (_ & _ & Hnoop).
  apply Hnoop. intros s u Hin Hparse.
  apply list_elem_of_In in Hin. simpl in Hin.
  destruct Hin as [Heq|[Heq|[]]]; inversion Heq; subst s;
    vm_compute in Hparse; inversion Hparse; subst u; vm_compute; set_solver.
Defined.
End AddFacts.

(* ===================================================================== *)
(** * packEntries: the guards and the prune *)
(* ===================================================================== *)

Module PackFacts.
Import JsString Fs Provider Spec JsMapFacts RegistryFacts.

Lemma List_filter_filter {A} (f : A → bool) (l : list A) :
  List.filter f l = filter (fun x => f x = true) l.
Proof.
  induction l as [|x l IH]; [reflexivity|]. simpl.
  destruct (f x) eqn:Hf.
  - rewrite filter_cons_True by exact Hf. f_equal. exact IH.
  - rewrite filter_cons_False by (rewrite Hf; discriminate). exact IH.
Qed.

Lemma filter_ext_elem {A} (P Q : A → Prop) `{∀ x, Decision (P x)} `{∀ x, Decision (Q x)}
    (l : list A) :
  (∀ x, x ∈ l → P x ↔ Q x) → filter P l = filter Q l.
Proof.
  induction l as [|x l IH]; intros Hext; [reflexivity|].
  assert (filter P l = filter Q l) as Hl.
  { apply IH. intros y Hy. apply Hext. right. exact Hy. }
  destruct (decide (P x)) as [HP|HP].
  - rewrite !filter_cons_True; [f_equal; exact Hl| |exact HP].
    apply Hext; [left|exact HP].
  - rewrite !filter_cons_False; [exact Hl| |exact HP].
    intros HQ. apply HP, Hext; [left|exact HQ].
Qed.

Lemma filter_all {A} (P : A → Prop) `{∀ x, Decision (P x)} (l : list A) :
  (∀ x, x ∈ l → P x) → filter P l = l.
Proof.
  induction l as [|x l IH]; intros Hall; [reflexivity|].
  rewrite filter_cons_True by (apply Hall; left).
  f_equal. apply IH. intros y Hy. apply Hall. right. exact Hy.
Qed.

Lemma filter_none {A} (P : A → Prop) `{∀ x, Decision (P x)} (l : list A) :
  (∀ x, x ∈ l → ¬ P x) → filter P l = [].
Proof.
  induction l as [|x l IH]; intros Hnone; [reflexivity|].
  rewrite filter_cons_False by (apply Hnone; left).
  apply IH. intros y Hy. apply Hnone. right. exact Hy.
Qed.

Lemma deleteAll_filter (lost : list Entry) (m : list (string * Entry)) :
  deleteAll lost m = filter (fun kv : string * Entry => kv.1 ∉ key <$> lost) m.
Proof.
  revert m. induction lost as [|e lost IH]; intros m.
  - simpl. symmetry. apply filter_all. intros kv _. apply not_elem_of_nil.
  - unfold deleteAll in *. simpl. rewrite IH.
    rewrite list_filter_filter. apply list_filter_iff.
    intros kv. rewrite not_elem_of_cons. tauto.
Qed.

(** Deleting the entries whose check failed keeps exactly the others. *)
Lemma deleteAll_missing h (m : list (string * Entry)) :
  wf m →
  deleteAll (List.filter (fun entry => negb (exists_now h entry)) (JsMap.values m)) m
  = filter (fun kv : string * Entry => exists_now h kv.2 = true) m.
Proof.
  intros [Hnd Hkeyed]. rewrite deleteAll_filter.
  apply filter_ext_elem. intros [k e] Hin. simpl.
  rewrite List_filter_filter. split.
  - intros Hout. destruct (exists_now h e) eqn:Hex; [reflexivity|].
    exfalso. apply Hout. apply list_elem_of_fmap. exists e. split.
    + symmetry. apply Hkeyed, Hin.
    + apply list_elem_of_filter. split; [rewrite Hex; reflexivity|].
      unfold JsMap.values. apply list_elem_of_fmap. exists (k, e). split; [reflexivity|exact Hin].
  - intros Hex Hlost. apply list_elem_of_fmap in Hlost as (e' & Hk & He').
    apply list_elem_of_filter in He' as [Hmiss He'].
    unfold JsMap.values in He'. apply list_elem_of_fmap in He' as ([k' e''] & Heq & Hin').
    simpl in Heq. subst e''.
    assert (k' = k) as -> by (rewrite Hk; symmetry; apply Hkeyed, Hin').
    assert (e' = e) as ->.
    { eapply unique_value; [exact Hnd|exact Hin'|exact Hin]. }
    rewrite Hex in Hmiss. discriminate.
Qed.

Lemma existing_nil_iff h (m : list (string * Entry)) :
  List.filter (exists_now h) (JsMap.values m) = []
  ↔ ∀ e, e ∈ JsMap.values m → exists_now h e = false.
Proof.
  rewrite List_filter_filter. split.
  - intros Hnil e He. destruct (exists_now h e) eqn:Hex; [|reflexivity].
    exfalso. eapply filter_nil_not_elem_of; [exact Hnil|exact Hex|exact He].
  - intros Hall. induction (JsMap.values m) as [|e l IH]; [reflexivity|].
    rewrite filter_cons_False.
    + apply IH. intros e' He'. apply Hall. right. exact He'.
    + rewrite Hall by left. discriminate.
Qed.

Lemma length_zero_iff {A} (l : list A) : Nat.eqb (length l) 0 = true ↔ l = [].
Proof.
  rewrite Nat.eqb_eq. split; [apply nil_length_inv|intros ->; reflexivity].
Qed.

(** The registry after [packEntries], whatever its end. *)
Lemma packEntries_entries h st root :
  entries st ≠ [] →
  head (workspaceFolders h) = Some root →
  entries (packEntries h st).2
  = deleteAll (List.filter (fun entry => negb (exists_now h entry))
                 (JsMap.values (entries st))) (entries st).
Proof.
  intros Hne Hroot. unfold packEntries.
  destruct (Nat.eqb (JsMap.size (entries st)) 0) eqn:Hsize.
  { apply size_zero in Hsize. contradiction. }
  rewrite Hroot.
  set (missing := List.filter (fun entry => negb (exists_now h entry))
                    (JsMap.values (entries st))).
  set (existing := List.filter (exists_now h) (JsMap.values (entries st))).
  destruct (Nat.ltb 0 (length missing)); destruct (Nat.eqb (length existing) 0);
    simpl; rewrite ?notifyEntries_entries; simpl; rewrite ?notifyEntries_entries;
    try reflexivity.
  - destruct (createArchive _ _ _ _) as [[p|] d]; simpl;
      rewrite ?notifyEntries_entries; simpl; rewrite ?notifyEntries_entries; reflexivity.
  - destruct (createArchive _ _ _ _) as [[p|] d]; simpl;
      rewrite ?notifyEntries_entries; reflexivity.
Qed.

Lemma wf_filter (P : string * Entry → Prop) `{∀ kv, Decision (P kv)}
    (m : list (string * Entry)) :
  wf m → wf (filter P m).
Proof.
  intros [Hnd Hkeyed]. split.
  - induction m as [|[k e] m IH]; [constructor|].
    rewrite fmap_cons in Hnd. simpl in Hnd. apply NoDup_cons in Hnd as [Hhead Hnd].
    assert (keyed m) as Hm by (intros k' e' Hin; apply Hkeyed; right; exact Hin).
    destruct (decide (P (k, e))) as [HP|HP].
    + rewrite filter_cons_True by exact HP. rewrite fmap_cons. simpl.
      apply NoDup_cons. split; [|apply IH; assumption].
      intros Hin. apply Hhead.
      apply list_elem_of_fmap in Hin as (kv & Hk & Hkv).
      apply list_elem_of_filter in Hkv as [_ Hkv].
      apply list_elem_of_fmap. exists kv. split; assumption.
    + rewrite filter_cons_False by exact HP. apply IH; assumption.
  - intros k e Hin. apply list_elem_of_filter in Hin as [_ Hin]. apply Hkeyed, Hin.
Qed.

Lemma removeEntry_wf k st : wf (entries st) → wf (entries (removeEntry k st)).
Proof. intros Hwf. rewrite removeEntry_entries. apply wf_filter, Hwf. Qed.

Lemma clearAll_wf st : wf (entries st) → wf (entries (clearAll st)).
Proof.
  intros Hwf. unfold clearAll.
  destruct (Nat.eqb (JsMap.size (entries st)) 0); [exact Hwf|].
  rewrite notifyEntries_entries. split; [constructor|].
  intros k e Hin. apply elem_of_nil in Hin. contradiction.
Qed.

Lemma packEntries_wf h st : wf (entries st) → wf (entries (packEntries h st).2).
Proof.
  intros Hwf.
  destruct (decide (entries st = [])) as [Hempty|Hne].
  { unfold packEntries. rewrite Hempty. simpl. rewrite Hempty.
    rewrite Hempty in Hwf. exact Hwf. }
  destruct (head (workspaceFolders h)) as [root|] eqn:Hroot.
  - rewrite (packEntries_entries h st root Hne Hroot), deleteAll_missing by exact Hwf.
    apply wf_filter, Hwf.
  - unfold packEntries. rewrite Hroot.
    destruct (Nat.eqb (JsMap.size (entries st)) 0); exact Hwf.
Qed.

(** Whatever the panel sends, the registry keeps its keys distinct and
    every entry under its own key. *)
Lemma receiveAll_wf messages st :
  wf (entries st) → wf (entries (receiveAll messages st)).
Proof.
  revert st. induction messages as [|[h m] rest IH]; intros st Hwf; [exact Hwf|].
  change (wf (entries (receiveAll rest (onDidReceiveMessage st (h, m))))).
  apply IH. destruct m; unfold onDidReceiveMessage; cbn [fst snd].
  - apply AddFacts.handleAdd_wf, Hwf.
  - apply removeEntry_wf, Hwf.
  - apply clearAll_wf, Hwf.
  - apply packEntries_wf, Hwf.
  - exact Hwf.
Qed.

(** C3: packing an empty registry ends at once with [EmptyList]: the
    message asking to add files first is the only thing that happens,
    the disk and the registry are as they were, and the editor is not
    consulted. *)
Theorem pack_on_empty_registry (h : Host) (st : State) :
  entries st = [] →
  (packEntries h st).1 = EmptyList
  ∧ disk (packEntries h st).2 = disk st
  ∧ entries (packEntries h st).2 = []
  ∧ emitted (packEntries h st).2
    = emitted st ++ [showInformationMessage "Add files or folders before packaging." []].
Proof.
  intros Hempty. unfold packEntries. rewrite Hempty. simpl. rewrite Hempty. auto.
Qed.

Lemma empty_pack_witness :
  (packEntries (Demo.hostOn Demo.disk0) (Demo.started Demo.disk0)).1 = EmptyList
  ∧ disk (packEntries (Demo.hostOn Demo.disk0) (Demo.started Demo.disk0)).2 = Demo.disk0.
Proof.
  destruct (pack_on_empty_registry (Demo.hostOn Demo.disk0) (Demo.started Demo.disk0) eq_refl)
    as (Hout & Hdisk & _).
  split; [exact Hout|exact Hdisk].
Defined.

(** C10: the entries whose check fails are deleted whatever the end of
    the pack: the registry afterwards holds exactly the entries that
    are still there, also when nothing is left and the pack ends with
    [NothingToPack], which leaves the registry empty. *)
Theorem pack_prune_is_kept_on_failure (h : Host) (st : State) (root : Uri) :
  wf (entries st) →
  entries st ≠ [] →
  head (workspaceFolders h) = Some root →
  (∀ kv, kv ∈ entries (packEntries h st).2 ↔ kv ∈ entries st ∧ exists_now h kv.2 = true)
  ∧ ((∀ e, e ∈ JsMap.values (entries st) → exists_now h e = false) →
     (packEntries h st).1 = NothingToPack ∧ entries (packEntries h st).2 = []).
Proof.
  intros Hwf Hne Hroot.
  assert (entries (packEntries h st).2
          = filter (fun kv : string * Entry => exists_now h kv.2 = true) (entries st)) as Hent.
  { rewrite (packEntries_entries h st root Hne Hroot). apply deleteAll_missing, Hwf. }
  split.
  - intros kv. rewrite Hent, list_elem_of_filter. tauto.
  - intros Hall. split.
    + unfold packEntries.
      destruct (Nat.eqb (JsMap.size (entries st)) 0) eqn:Hsize.
      { apply size_zero in Hsize. contradiction. }
      rewrite Hroot. apply existing_nil_iff in Hall. rewrite Hall. simpl. reflexivity.
    + rewrite Hent. apply filter_none. intros [k e] Hin. simpl.
      rewrite Hall; [discriminate|].
      unfold JsMap.values. apply list_elem_of_fmap. exists (k, e). split; [reflexivity|exact Hin].
Qed.

Lemma pack_prune_witness :
  (packEntries (Demo.hostOn ∅) Demo.two).1 = NothingToPack
  ∧ entries (packEntries (Demo.hostOn ∅) Demo.two).2 = [].
Proof.
  assert (wf (entries Demo.two)) as Hwf.
  { apply AddFacts.handleAdd_wf. split; [constructor|].
    intros k e Hin. apply elem_of_nil in Hin. contradiction. }
  assert (entries Demo.two ≠ []) as Hne by (vm_compute; discriminate).
  destruct (pack_prune_is_kept_on_failure (Demo.hostOn ∅) Demo.two (Demo.fileUri "/w")
              Hwf Hne eq_refl) as [_ Hall].
  apply Hall. intros e He. vm_compute in He.
  apply list_elem_of_In in He. simpl in He.
  destruct He as [<-|[<-|[]]]; reflexivity.
Defined.
End PackFacts.

(* ===================================================================== *)
(** * packEntries: the archive *)
(* ===================================================================== *)

Module ArchiveFacts.
Import JsString Fs Provider Spec JsMapFacts RegistryFacts PackFacts.

(** Reading leaves the disk as it is. *)
Lemma readFile_disk p d : (readFile p d).2 = d.
Proof. unfold readFile. destruct (d !! p) as [[]|]; reflexivity. Qed.

Lemma addDirectoryToMarkdown_disk dirPath rel d :
  (addDirectoryToMarkdown dirPath rel d).2 = d.
Proof.
  unfold addDirectoryToMarkdown, bind, readdir, lift.
  destruct (d !! dirPath) as [[]|]; reflexivity.
Qed.

Lemma archiveEntry_disk entry content d : (archiveEntry entry content d).2 = d.
Proof.
  unfold archiveEntry, bind.
  destruct (type entry).
  - pose proof (readFile_disk (fsPath (uri entry)) d) as H.
    destruct (readFile _ d) as [[c|] d']; simpl in *; congruence.
  - pose proof (addDirectoryToMarkdown_disk (fsPath (uri entry)) (relativePath entry) d) as H.
    destruct (addDirectoryToMarkdown _ _ d) as [[c|] d']; simpl in *; congruence.
Qed.

Lemma archiveEntries_disk kept content d : (archiveEntries kept content d).2 = d.
Proof.
  revert content. induction kept as [|entry rest IH]; intros content; [reflexivity|].
  simpl. unfold bind.
  pose proof (archiveEntry_disk entry content d) as H.
  destruct (archiveEntry entry content d) as [[c|] d']; simpl in *; subst d'.
  - apply IH.
  - reflexivity.
Qed.

(** What a [createArchive] that returns has done, step by step. *)
Lemma createArchive_returns h folder kept d p d' :
  createArchive h folder kept d = (Some p, d') →
  ∃ d1 doc,
    ensureDir (targetDirOf folder) d = (Some tt, d1)
    ∧ archiveEntries kept (documentHeader h) d1 = (Some doc, d1)
    ∧ p = Path.join (targetDirOf folder) ("bundle-" +:+ formatTimestamp (now h) +:+ ".md")
    ∧ writeFile p doc d1 = (Some tt, d').
Proof.
  unfold createArchive, bind. intros Hrun.
  destruct (ensureDir (targetDirOf folder) d) as [[[]|] d1] eqn:Hdir; [|discriminate].
  pose proof (archiveEntries_disk kept (documentHeader h) d1) as Hsame.
  destruct (archiveEntries kept (documentHeader h) d1) as [[doc|] d2] eqn:Hdoc;
    [|discriminate].
  simpl in Hsame. subst d2.
  destruct (writeFile _ doc d1) as [[[]|] d3] eqn:Hwrite; [|discriminate].
  unfold ret in Hrun. inversion Hrun; subst.
  exists d1, doc. auto.
Qed.

Lemma notifyEntries_emitted status st :
  emitted (notifyEntries status st)
  = emitted st ++ (if view st then [postMessage (snapshot st) status] else []).
Proof.
  unfold notifyEntries. destruct (view st); simpl; [reflexivity|].
  rewrite app_nil_r. reflexivity.
Qed.

Lemma warnings_app evs evs' : warnings (evs ++ evs') = warnings evs ++ warnings evs'.
Proof. unfold warnings. apply omap_app. Qed.

Lemma notifyEntries_warnings status st :
  warnings (emitted (notifyEntries status st)) = warnings (emitted st).
Proof.
  rewrite notifyEntries_emitted, warnings_app.
  destruct (view st); simpl; rewrite app_nil_r; reflexivity.
Qed.

Lemma emit_emitted evs st : emitted (emit evs st) = emitted st ++ evs.
Proof. reflexivity. Qed.
Lemma emit_disk evs st : disk (emit evs st) = disk st.
Proof. reflexivity. Qed.
Lemma with_disk_emitted d st : emitted (with_disk d st) = emitted st.
Proof. reflexivity. Qed.
Lemma with_disk_disk d st : disk (with_disk d st) = d.
Proof. reflexivity. Qed.
Lemma with_entries_emitted m st : emitted (with_entries m st) = emitted st.
Proof. reflexivity. Qed.
Lemma with_entries_disk m st : disk (with_entries m st) = disk st.
Proof. reflexivity. Qed.

Create Rewrite HintDb provider.
#[export] Hint Rewrite emit_emitted emit_disk with_disk_emitted with_disk_disk
  with_entries_emitted with_entries_disk notifyEntries_disk notifyEntries_warnings
  warnings_app : provider.

Lemma values_filter h (m : list (string * Entry)) :
  JsMap.values (filter (fun kv : string * Entry => exists_now h kv.2 = true) m)
  = List.filter (exists_now h) (JsMap.values m).
Proof.
  unfold JsMap.values. induction m as [|[k e] m IH]; [reflexivity|].
  rewrite fmap_cons. simpl. destruct (exists_now h e) eqn:Hex.
  - rewrite filter_cons_True by exact Hex. rewrite fmap_cons. simpl. f_equal. exact IH.
  - rewrite filter_cons_False by (simpl; rewrite Hex; discriminate). exact IH.
Qed.

(** C2 as amended: on a registry that holds something, with a workspace
    folder open, the pack deletes the entries whose check fails and
    keeps the others; it shows one warning with the number it skipped
    when it skipped any, and none otherwise; when nothing is left it
    ends with [NothingToPack]; otherwise it archives exactly the entries
    that are left, in their order, and ends with the path of the
    document when the archive is written and with [PackIOError] when
    reading or writing throws. *)
Theorem pack_skips_missing_and_archives_the_rest (h : Host) (st : State) (root : Uri) :
  wf (entries st) →
  entries st ≠ [] →
  head (workspaceFolders h) = Some root →
  JsMap.values (entries (packEntries h st).2) = existingNow h st
  ∧ warnings (emitted (packEntries h st).2)
    = warnings (emitted st) ++
        match missingNow h st with
        | [] => []
        | _ :: _ =>
            ["Skipped " +:+ Number_toString (Z.of_nat (length (missingNow h st)))
             +:+ " missing item(s)."]
        end
  ∧ (existingNow h st = [] → (packEntries h st).1 = NothingToPack)
  ∧ (existingNow h st ≠ [] →
       (packEntries h st).1
       = match (createArchive h root (existingNow h st) (disk st)).1 with
         | Some outputPath => Done outputPath
         | None => PackIOError
         end
       ∧ disk (packEntries h st).2
         = (createArchive h root (existingNow h st) (disk st)).2).
Proof.
  intros Hwf Hne Hroot. split.
  { rewrite (packEntries_entries h st root Hne Hroot), (deleteAll_missing h _ Hwf).
    apply values_filter. }
  unfold packEntries, existingNow, missingNow.
  destruct (Nat.eqb (JsMap.size (entries st)) 0) eqn:Hsize.
  { apply size_zero in Hsize. contradiction. }
  rewrite Hroot.
  set (missing := List.filter (fun entry => negb (exists_now h entry))
                    (JsMap.values (entries st))).
  set (existing := List.filter (exists_now h) (JsMap.values (entries st))).
  destruct missing as [|lost missing'] eqn:Hmissing; cbn [length Nat.ltb Nat.leb];
    (destruct existing as [|e existing'] eqn:Hexisting; cbn [length Nat.eqb];
     [|autorewrite with provider;
       destruct (createArchive h root (e :: existing') (disk st)) as [[p|] d]]);
    cbn [fst snd]; autorewrite with provider; simpl; rewrite ?app_nil_r;
    (split; [reflexivity|split; [try reflexivity; discriminate|]]);
    try (intros Hcontra; contradiction); intros _; split; reflexivity.
Qed.

Lemma pack_skips_witness :
  (packEntries (Demo.hostOn Demo.diskLess) Demo.twoLater).1 = Done Demo.bundlePath
  ∧ JsMap.values (entries (packEntries (Demo.hostOn Demo.diskLess) Demo.twoLater).2)
    = [Demo.entryD]
  ∧ warnings (emitted (packEntries (Demo.hostOn Demo.diskLess) Demo.twoLater).2)
    = ["Skipped 1 missing item(s)."].
Proof.
  assert (wf (entries Demo.twoLater)) as Hwf.
  { change (wf (entries Demo.two)).
    apply AddFacts.handleAdd_wf. split; [constructor|].
    intros k e Hin. apply elem_of_nil in Hin. contradiction. }
  assert (entries Demo.twoLater ≠ []) as Hne by (vm_compute; discriminate).
  destruct (pack_skips_missing_and_archives_the_rest (Demo.hostOn Demo.diskLess)
              Demo.twoLater (Demo.fileUri "/w") Hwf Hne eq_refl)
    as (Hvals & Hwarn & _ & Hout).
  split; [|split].
  - destruct Hout as [-> _]; [vm_compute; discriminate|]. vm_compute. reflexivity.
  - rewrite Hvals. vm_compute. reflexivity.
  - rewrite Hwarn. vm_compute. reflexivity.
Defined.

Lemma pack_counterexample :
  entries Demo.blocked ≠ []
  ∧ head (workspaceFolders (Demo.hostOn Demo.diskBlocked)) = Some (Demo.fileUri "/w")
  ∧ missingNow (Demo.hostOn Demo.diskBlocked) Demo.blocked = []
  ∧ existingNow (Demo.hostOn Demo.diskBlocked) Demo.blocked ≠ []
  ∧ (packEntries (Demo.hostOn Demo.diskBlocked) Demo.blocked).1 = PackIOError
  ∧ warnings (emitted (packEntries (Demo.hostOn Demo.diskBlocked) Demo.blocked).2) = [].
Proof. vm_compute. repeat split; discriminate. Qed.
End ArchiveFacts.

(* ===================================================================== *)
(** * The language tag *)
(* ===================================================================== *)

Module PathFacts.
Import JsString Path Provider Spec.

Lemma chars_app (a b : string) :
  list_ascii_of_string (a +:+ b) = list_ascii_of_string a ++ list_ascii_of_string b.
Proof. induction a as [|c a IH]; [reflexivity|]. simpl. f_equal. exact IH. Qed.

Lemma chars_nil (a : string) : list_ascii_of_string a = [] → a = "".
Proof. destruct a; [reflexivity|discriminate]. Qed.

Lemma takeWhile_app p l1 l2 :
  Forall (fun c => p c = true) l1 →
  takeWhile p (l1 ++ l2) = l1 ++ takeWhile p l2.
Proof.
  induction 1 as [|c l1 Hc _ IH]; [reflexivity|].
  simpl. rewrite Hc, IH. reflexivity.
Qed.


Lemma Forall_not_char (c : ascii) (l : list ascii) :
  c ∉ l → Forall (fun x => negb (Ascii.eqb x c) = true) l.
Proof.
  intros Hout. apply Forall_forall. intros x Hx.
  apply negb_true_iff, Ascii.eqb_neq. intros ->. exact (Hout Hx).
Qed.

Lemma not_in_rev (c : ascii) (l : list ascii) : c ∉ l → c ∉ rev l.
Proof. intros Hout Hin. apply Hout. apply list_elem_of_In, in_rev, list_elem_of_In, Hin. Qed.

(** The reversed characters of a directory prefix stop a scan for the
    last component at once. *)
Lemma takeWhile_dirPrefix (dir : string) :
  dirPrefix dir →
  takeWhile (fun c => negb (isSlash c)) (rev (list_ascii_of_string dir)) = [].
Proof.
  intros [->|[d ->]]; [reflexivity|].
  rewrite chars_app, rev_app_distr. reflexivity.
Qed.

(** The last component of [dir ++ name], for a name without slash. *)
Lemma lastPartRev_name (dir name : string) :
  dirPrefix dir → name ≠ "" → lacks "/" name →
  lastPartRev (list_ascii_of_string (dir +:+ name)) = rev (list_ascii_of_string name).
Proof.
  intros Hdir Hne Hslash. unfold lastPartRev, lacks in *.
  rewrite chars_app, rev_app_distr.
  assert (Forall (fun x => negb (isSlash x) = true) (rev (list_ascii_of_string name)))
    as Hall by (apply Forall_not_char, not_in_rev, Hslash).
  destruct (rev (list_ascii_of_string name)) as [|c r] eqn:Hrev.
  { exfalso. apply Hne, chars_nil. apply (f_equal (@rev ascii)) in Hrev.
    rewrite rev_involutive in Hrev. exact Hrev. }
  assert (isSlash c = false) as Hc.
  { inversion Hall as [|? ? Hc' _]; subst. apply negb_true_iff, Hc'. }
  cbn [app dropWhile]. rewrite Hc.
  change (c :: r ++ rev (list_ascii_of_string dir))
    with ((c :: r) ++ rev (list_ascii_of_string dir)).
  rewrite takeWhile_app by exact Hall.
  rewrite takeWhile_dirPrefix by exact Hdir. apply app_nil_r.
Qed.



Lemma toLowerCase_empty (s : string) : toLowerCase s = "" ↔ s = "".
Proof. destruct s; simpl; split; congruence. Qed.




End PathFacts.

(* ===================================================================== *)
(** * The walk over a directory *)
(* ===================================================================== *)

Module WalkFacts.
Import JsString Fs Provider Spec.

(** Induction on a node with the property at hand for every item of a
    directory. *)
Lemma Node_nested_ind (P : Node → Prop) :
  (∀ content, P (File content)) →
  (∀ items, Forall (fun it : string * Node => P it.2) items → P (Directory items)) →
  P Special →
  P Broken →
  ∀ node, P node.
Proof.
  intros Hfile Hdir Hspecial Hbroken.
  fix IH 1. intros [content|items| |].
  - apply Hfile.
  - apply Hdir. induction items as [|[name child] rest IHrest].
    + constructor.
    + constructor; [apply IH|exact IHrest].
  - exact Hspecial.
  - exact Hbroken.
Qed.

Lemma append_assoc (a b c : string) : (a +:+ b) +:+ c = a +:+ (b +:+ c).
Proof.
  induction a as [|x a IH]; [reflexivity|].
  change (String x ((a +:+ b) +:+ c) = String x (a +:+ (b +:+ c))).
  rewrite IH. reflexivity.
Qed.

Lemma append_empty_r (a : string) : a +:+ "" = a.
Proof.
  induction a as [|x a IH]; [reflexivity|].
  change (String x (a +:+ "") = String x a). rewrite IH. reflexivity.
Qed.

(** The loop inside [addItem] is [addItems]. *)
Lemma addItem_Directory rel item items :
  addItem rel item (Directory items) = addItems (Path.join rel item) "" items.
Proof.
  cbn [addItem]. generalize "". 
  induction items as [|[name child] rest IH]; intros content; [reflexivity|].
  cbn [addItems]. destruct (addItem (Path.join rel item) name child); [apply IH|reflexivity].
Qed.

Lemma filesOfItem_Directory rel item items :
  filesOfItem rel item (Directory items) = filesOfItems (Path.join rel item) items.
Proof.
  cbn [filesOfItem].
  induction items as [|[name child] rest IH]; [reflexivity|].
  cbn [filesOfItems]. f_equal. exact IH.
Qed.

Lemma readableItems_cons name child rest :
  readableItems ((name, child) :: rest) = readable child && readableItems rest.
Proof. reflexivity. Qed.


Lemma sections_app fs1 fs2 : sections (fs1 ++ fs2) = sections fs1 +:+ sections fs2.
Proof.
  induction fs1 as [|[[rel name] content] fs1 IH]; [reflexivity|].
  simpl. rewrite IH, append_assoc. reflexivity.
Qed.

(** What the loop returns, from what the items return. *)
Lemma addItems_from_items rel items :
  Forall (fun it : string * Node =>
            ∀ rel' item, addItem rel' item it.2
                         = if readable it.2
                           then Some (sections (filesOfItem rel' item it.2))
                           else None) items →
  ∀ content,
    addItems rel content items
    = if readableItems items
      then Some (content +:+ sections (filesOfItems rel items))
      else None.
Proof.
  induction 1 as [|[name child] rest Hchild _ IH]; intros content.
  - simpl. rewrite append_empty_r. reflexivity.
  - cbn [addItems]. rewrite readableItems_cons. simpl in Hchild. rewrite Hchild.
    destruct (readable child); [|reflexivity].
    rewrite IH. cbn [andb filesOfItems].
    destruct (readableItems rest); [|reflexivity].
    rewrite sections_app, append_assoc. reflexivity.
Qed.

(** The walk returns exactly when no [stat] below throws, and then it
    returns the sections of the files below, in traversal order. *)
Lemma addItem_sections node :
  ∀ rel item,
    addItem rel item node
    = if readable node then Some (sections (filesOfItem rel item node)) else None.
Proof.
  induction node as [content|items IH| |] using Node_nested_ind; intros rel item.
  - simpl. rewrite append_empty_r. reflexivity.
  - rewrite addItem_Directory, filesOfItem_Directory.
    rewrite (addItems_from_items _ _ IH). reflexivity.
  - reflexivity.
  - reflexivity.
Qed.

Lemma addItems_sections rel content items :
  addItems rel content items
  = if readableItems items
    then Some (content +:+ sections (filesOfItems rel items))
    else None.
Proof.
  apply addItems_from_items. apply Forall_forall. intros it _. apply addItem_sections.
Qed.










End WalkFacts.

(* ===================================================================== *)
(** * The document *)
(* ===================================================================== *)

Module DocumentFacts.
Import JsString Fs Provider Spec JsMapFacts RegistryFacts PackFacts ArchiveFacts WalkFacts.

Lemma contains_refl_app before part after : contains (before +:+ part +:+ after) part.
Proof. exists before, after. reflexivity. Qed.

Lemma contains_prefix_app doc part more : contains doc part → contains (doc +:+ more) part.
Proof.
  intros (before & after & ->). exists before, (after +:+ more).
  rewrite !append_assoc. reflexivity.
Qed.

Lemma contains_suffix_app doc part more : contains doc part → contains (more +:+ doc) part.
Proof.
  intros (before & after & ->). exists (more +:+ before), after.
  rewrite !append_assoc. reflexivity.
Qed.

(** A returning [archiveEntry] on a file entry appends its section. *)
Lemma archiveEntry_file entry mdContent d doc d' :
  type entry = file →
  archiveEntry entry mdContent d = (Some doc, d') →
  ∃ content,
    d !! fsPath (uri entry) = Some (File content)
    ∧ doc = mdContent +:+ fileSection (relativePath entry) (langTag (relativePath entry)) content.
Proof.
  unfold archiveEntry, bind, readFile, ret. intros -> Hrun.
  destruct (d !! fsPath (uri entry)) as [[content|items| |]|]; try discriminate.
  inversion Hrun; subst. eauto.
Qed.

(** Whatever [archiveEntry] returns starts with what was there. *)
Lemma archiveEntry_extends entry mdContent d doc d' :
  archiveEntry entry mdContent d = (Some doc, d') → ∃ more, doc = mdContent +:+ more.
Proof.
  unfold archiveEntry, bind, ret. destruct (type entry).
  - destruct (readFile _ d) as [[content|] d1]; [|discriminate].
    intros Hrun. inversion Hrun. eauto.
  - destruct (addDirectoryToMarkdown _ _ d) as [[content|] d1]; [|discriminate].
    intros Hrun. inversion Hrun. eauto.
Qed.

Lemma archiveEntries_extends kept mdContent d doc d' :
  archiveEntries kept mdContent d = (Some doc, d') → ∃ more, doc = mdContent +:+ more.
Proof.
  revert mdContent d. induction kept as [|entry rest IH]; intros mdContent d Hrun.
  - inversion Hrun. exists "". rewrite append_empty_r. reflexivity.
  - cbn [archiveEntries] in Hrun. unfold bind in Hrun.
    destruct (archiveEntry entry mdContent d) as [[c|] d1] eqn:Hone; [|discriminate].
    apply archiveEntry_extends in Hone as (more1 & ->).
    apply IH in Hrun as (more2 & ->).
    exists (more1 +:+ more2). rewrite append_assoc. reflexivity.
Qed.

(** The section of every file entry is in the document. *)
Lemma archiveEntries_file kept mdContent d doc d' entry :
  archiveEntries kept mdContent d = (Some doc, d') →
  entry ∈ kept →
  type entry = file →
  ∃ content,
    d !! fsPath (uri entry) = Some (File content)
    ∧ contains doc (fileSection (relativePath entry) (langTag (relativePath entry)) content).
Proof.
  revert mdContent d. induction kept as [|first rest IH]; intros mdContent d Hrun Hin Hfile.
  - apply elem_of_nil in Hin. contradiction.
  - cbn [archiveEntries] in Hrun. unfold bind in Hrun.
    pose proof (archiveEntry_disk first mdContent d) as Hsame.
    destruct (archiveEntry first mdContent d) as [[c|] d1] eqn:Hone; [|discriminate].
    simpl in Hsame. subst d1.
    apply elem_of_cons in Hin as [->|Hin].
    + apply (archiveEntry_file _ _ _ _ _ Hfile) in Hone as (content & Hread & ->).
      exists content. split; [exact Hread|].
      apply archiveEntries_extends in Hrun as (more & ->).
      rewrite append_assoc. apply contains_refl_app.
    + eapply IH; eassumption.
Qed.

(** A returning [archiveEntry] on a directory entry appends the
    sections of the files below it. *)
Lemma archiveEntry_directory entry mdContent d doc d' :
  type entry = directory →
  archiveEntry entry mdContent d = (Some doc, d') →
  ∃ items,
    d !! fsPath (uri entry) = Some (Directory items)
    ∧ readableItems items = true
    ∧ doc = mdContent +:+ sections (filesOfItems (relativePath entry) items).
Proof.
  unfold archiveEntry, addDirectoryToMarkdown, bind, readdir, lift, ret. intros -> Hrun.
  destruct (d !! fsPath (uri entry)) as [[content|items| |]|]; try discriminate.
  rewrite addItems_sections in Hrun.
  destruct (readableItems items) eqn:Hreadable; [|discriminate].
  inversion Hrun; subst. exists items. auto.
Qed.

Lemma archiveEntries_directory kept mdContent d doc d' entry :
  archiveEntries kept mdContent d = (Some doc, d') →
  entry ∈ kept →
  type entry = directory →
  ∃ items,
    d !! fsPath (uri entry) = Some (Directory items)
    ∧ contains doc (sections (filesOfItems (relativePath entry) items)).
Proof.
  revert mdContent d. induction kept as [|first rest IH]; intros mdContent d Hrun Hin Hdir.
  - apply elem_of_nil in Hin. contradiction.
  - cbn [archiveEntries] in Hrun. unfold bind in Hrun.
    pose proof (archiveEntry_disk first mdContent d) as Hsame.
    destruct (archiveEntry first mdContent d) as [[c|] d1] eqn:Hone; [|discriminate].
    simpl in Hsame. subst d1.
    apply elem_of_cons in Hin as [->|Hin].
    + apply (archiveEntry_directory _ _ _ _ _ Hdir) in Hone as (items & Hread & _ & ->).
      exists items. split; [exact Hread|].
      apply archiveEntries_extends in Hrun as (more & ->).
      rewrite append_assoc. apply contains_refl_app.
    + eapply IH; eassumption.
Qed.

(** What [ensureDir] leaves of the disk: every file is where it was. *)
Lemma ensureDir_files p d d1 q content :
  ensureDir p d = (Some tt, d1) →
  d1 !! q = Some (File content) → d !! q = Some (File content).
Proof.
  unfold ensureDir. destruct (d !! p) as [[c|items| |]|] eqn:Hp; intros Hrun;
    inversion Hrun; subst; try (intros H; exact H).
  intros Hq. destruct (decide (p = q)) as [->|Hne].
  - rewrite lookup_insert_eq in Hq. discriminate.
  - rewrite lookup_insert_ne in Hq by exact Hne. exact Hq.
Qed.

Lemma ensureDir_directories p d d1 q items :
  ensureDir p d = (Some tt, d1) →
  d1 !! q = Some (Directory items) →
  d !! q = Some (Directory items) ∨ (d !! q = None ∧ q = p ∧ items = []).
Proof.
  unfold ensureDir. destruct (d !! p) as [[c|its| |]|] eqn:Hp; intros Hrun;
    inversion Hrun; subst; try (intros H; left; exact H).
  intros Hq. destruct (decide (p = q)) as [->|Hne].
  - rewrite lookup_insert_eq in Hq. inversion Hq. right. auto.
  - rewrite lookup_insert_ne in Hq by exact Hne. left. exact Hq.
Qed.

Lemma writeFile_written p doc d d' :
  writeFile p doc d = (Some tt, d') → d' = <[p := File doc]> d.
Proof.
  unfold writeFile. destruct (d !! p) as [[c|items| |]|]; intros Hrun;
    inversion Hrun; reflexivity.
Qed.

(** What a pack that ends with [Done] has run. *)
Lemma packEntries_done h st outputPath st' :
  packEntries h st = (Done outputPath, st') →
  ∃ root,
    head (workspaceFolders h) = Some root
    ∧ createArchive h root (existingNow h st) (disk st) = (Some outputPath, disk st').
Proof.
  unfold packEntries, existingNow.
  destruct (Nat.eqb (JsMap.size (entries st)) 0); [discriminate|].
  destruct (head (workspaceFolders h)) as [root|]; [|discriminate].
  set (missing := List.filter (fun entry => negb (exists_now h entry))
                    (JsMap.values (entries st))).
  set (existing := List.filter (exists_now h) (JsMap.values (entries st))).
  destruct (Nat.ltb 0 (length missing)); (destruct (Nat.eqb (length existing) 0);
    [discriminate|]); autorewrite with provider;
    (destruct (createArchive h root existing (disk st)) as [[p|] d] eqn:Hcreate;
     [|discriminate]);
    intros Hrun; inversion Hrun; subst; exists root; autorewrite with provider; auto.
Qed.

(** C5 as amended: the document written by a pack has, for every file
    entry that is still there, a section made of a heading line with
    the relative path between backquotes after the label, an empty
    line, a fenced block tagged with the language that holds the
    content of the file as it is, an empty line, a rule of three
    dashes and an empty line. The label of the heading is the one of
    the source, [文件]. *)
Theorem file_entry_section_is_in_the_document
    (h : Host) (st st' : State) (outputPath : string) (entry : Entry) :
  packEntries h st = (Done outputPath, st') →
  entry ∈ JsMap.values (entries st) →
  exists_now h entry = true →
  type entry = file →
  ∃ content doc,
    disk st !! fsPath (uri entry) = Some (File content)
    ∧ disk st' !! outputPath = Some (File doc)
    ∧ contains doc
        ("## 文件: `" +:+ relativePath entry +:+ "`" +:+ nl +:+ nl
         +:+ "```" +:+ langTag (relativePath entry) +:+ nl
         +:+ content +:+ nl
         +:+ "```" +:+ nl +:+ nl
         +:+ "---" +:+ nl +:+ nl).
Proof.
  intros Hpack Hin Hexists Hfile.
  apply packEntries_done in Hpack as (root & _ & Hrun).
  apply createArchive_returns in Hrun as (d1 & doc & Hdir & Hdoc & -> & Hwrite).
  assert (entry ∈ existingNow h st) as Htodo.
  { unfold existingNow. apply list_elem_of_In, filter_In. split; [|exact Hexists].
    apply list_elem_of_In, Hin. }
  destruct (archiveEntries_file _ _ _ _ _ entry Hdoc Htodo Hfile) as (content & Hread & Hsec).
  exists content, doc. split; [|split].
  - eapply ensureDir_files; eassumption.
  - apply writeFile_written in Hwrite. rewrite Hwrite. apply lookup_insert_eq.
  - unfold fileSection, heading, fence in Hsec.
    rewrite !append_assoc in Hsec. exact Hsec.
Qed.

(** The same for a directory entry: the sections of the files below
    it are in the document, one after the other. *)
Lemma directory_entry_sections_are_in_the_document
    (h : Host) (st st' : State) (outputPath : string) (entry : Entry) :
  packEntries h st = (Done outputPath, st') →
  entry ∈ JsMap.values (entries st) →
  exists_now h entry = true →
  type entry = directory →
  ∃ items doc,
    (disk st !! fsPath (uri entry) = Some (Directory items)
     ∨ (disk st !! fsPath (uri entry) = None ∧ items = []))
    ∧ disk st' !! outputPath = Some (File doc)
    ∧ contains doc (sections (filesOfItems (relativePath entry) items)).
Proof.
  intros Hpack Hin Hexists Hdirectory.
  apply packEntries_done in Hpack as (root & _ & Hrun).
  apply createArchive_returns in Hrun as (d1 & doc & Hdir & Hdoc & -> & Hwrite).
  assert (entry ∈ existingNow h st) as Htodo.
  { unfold existingNow. apply list_elem_of_In, filter_In. split; [|exact Hexists].
    apply list_elem_of_In, Hin. }
  destruct (archiveEntries_directory _ _ _ _ _ entry Hdoc Htodo Hdirectory)
    as (items & Hread & Hsec).
  exists items, doc. split; [|split].
  - destruct (ensureDir_directories _ _ _ _ _ Hdir Hread) as [Hold|(Hnone & _ & ->)];
      [left; exact Hold|right; auto].
  - apply writeFile_written in Hwrite. rewrite Hwrite. apply lookup_insert_eq.
  - exact Hsec.
Qed.

Lemma file_entry_section_witness :
  ∃ content doc,
    disk Demo.one !! "/w/a.py" = Some (File content)
    ∧ disk (packEntries (Demo.hostOn Demo.disk0) Demo.one).2 !! Demo.bundlePath
      = Some (File doc)
    ∧ contains doc
        ("## 文件: `" +:+ "a.py" +:+ "`" +:+ nl +:+ nl
         +:+ "```" +:+ langTag "a.py" +:+ nl
         +:+ content +:+ nl
         +:+ "```" +:+ nl +:+ nl
         +:+ "---" +:+ nl +:+ nl).
Proof.
  apply (file_entry_section_is_in_the_document (Demo.hostOn Demo.disk0) Demo.one
           (packEntries (Demo.hostOn Demo.disk0) Demo.one).2 Demo.bundlePath Demo.entryA).
  - vm_compute. reflexivity.
  - vm_compute. left.
  - reflexivity.
  - reflexivity.
Defined.

Lemma heading_counterexample :
  ∃ doc,
    disk (packEntries (Demo.hostOn Demo.disk0) Demo.one).2 !! Demo.bundlePath
    = Some (File doc)
    ∧ includes doc "## File: `a.py`" = false
    ∧ includes doc "## 文件: `a.py`" = true
    ∧ includes doc "```py" = true
    ∧ includes doc "print(1)" = true.
Proof. eexists. split; [vm_compute; reflexivity|]. vm_compute. auto. Qed.
End DocumentFacts.

(* ===================================================================== *)
(** * Joining paths *)
(* ===================================================================== *)

Module JoinFacts.
Import JsString Path Provider Spec PathFacts.

Lemma segments_plain (s : chars) : "/"%char ∉ s → segments s = [s].
Proof.
  induction s as [|c s IH]; intros Hout; [reflexivity|].
  apply not_elem_of_cons in Hout as [Hc Hs].
  simpl. assert (isSlash c = false) as ->.
  { apply Ascii.eqb_neq. congruence. }
  rewrite IH by exact Hs. reflexivity.
Qed.

Lemma segments_app (s rest : chars) :
  "/"%char ∉ s → segments (s ++ "/"%char :: rest) = s :: segments rest.
Proof.
  induction s as [|c s IH]; intros Hout; [reflexivity|].
  apply not_elem_of_cons in Hout as [Hc Hs].
  simpl. assert (isSlash c = false) as ->.
  { apply Ascii.eqb_neq. congruence. }
  rewrite IH by exact Hs. reflexivity.
Qed.

Lemma segments_joinSegments (segs : list chars) :
  segs ≠ [] → Forall (fun s => "/"%char ∉ s) segs → segments (joinSegments segs) = segs.
Proof.
  intros Hne Hall. induction Hall as [|s rest Hs Hrest IH]; [contradiction|].
  destruct rest as [|s' rest'].
  - simpl. apply segments_plain, Hs.
  - change (joinSegments (s :: s' :: rest'))
      with (s ++ "/"%char :: joinSegments (s' :: rest')).
    rewrite segments_app by exact Hs. f_equal. apply IH. discriminate.
Qed.

Lemma joinSegments_snoc (segs : list chars) (b : chars) :
  segs ≠ [] → joinSegments (segs ++ [b]) = joinSegments segs ++ "/"%char :: b.
Proof.
  induction segs as [|s rest IH]; intros Hne; [contradiction|].
  destruct rest as [|s' rest'].
  - reflexivity.
  - change (joinSegments ((s :: s' :: rest') ++ [b]))
      with (s ++ "/"%char :: joinSegments ((s' :: rest') ++ [b])).
    rewrite IH by discriminate.
    change (joinSegments (s :: s' :: rest'))
      with (s ++ "/"%char :: joinSegments (s' :: rest')).
    rewrite <- app_assoc. reflexivity.
Qed.

Lemma normalizeStep_plain allow res seg :
  plain seg → normalizeStep allow res seg = res ++ [seg].
Proof.
  intros (Hne & Hdot & Hdotdot & _). unfold normalizeStep.
  rewrite !bool_decide_eq_false_2 by assumption. reflexivity.
Qed.

Lemma foldl_normalizeStep_plain allow segs res :
  Forall plain segs → foldl (normalizeStep allow) res segs = res ++ segs.
Proof.
  intros Hall. revert res. induction Hall as [|s rest Hs _ IH]; intros res.
  - rewrite app_nil_r. reflexivity.
  - simpl. rewrite normalizeStep_plain by exact Hs. rewrite IH, <- app_assoc. reflexivity.
Qed.

Lemma joinSegments_nonempty (segs : list chars) :
  segs ≠ [] → Forall plain segs → joinSegments segs ≠ [].
Proof.
  intros Hne Hall. destruct Hall as [|s rest (Hs & _) _]; [contradiction|].
  destruct s as [|c s]; [contradiction|].
  destruct rest; discriminate.
Qed.

Lemma plain_no_slash (segs : list chars) :
  Forall plain segs → Forall (fun s => "/"%char ∉ s) segs.
Proof.
  intros Hall. eapply Forall_impl; [exact Hall|].
  intros s (_ & _ & _ & Hs). exact Hs.
Qed.

(** A normalized absolute path is its own normal form. *)
Lemma normalizeChars_normal (segs : list chars) :
  segs ≠ [] → Forall plain segs →
  normalizeChars ("/"%char :: joinSegments segs) = "/"%char :: joinSegments segs.
Proof.
  intros Hne Hall. unfold normalizeChars, normalizeString.
  change (isSlash "/") with true. cbn [negb].
  change (segments ("/"%char :: joinSegments segs))
    with ([] :: segments (joinSegments segs)).
  rewrite segments_joinSegments by (try apply plain_no_slash; assumption).
  cbn [foldl]. change (normalizeStep false [] []) with (@nil chars).
  rewrite foldl_normalizeStep_plain by exact Hall. cbn [app].
  pose proof (joinSegments_nonempty segs Hne Hall) as Hbody.
  destruct (joinSegments segs) as [|c body] eqn:Hjoin; [contradiction|].
  assert (last ("/"%char :: c :: body) = last (c :: body)) as -> by reflexivity.
  assert (∃ x, last (c :: body) = Some x ∧ isSlash x = false) as (x & -> & ->).
  { rewrite <- Hjoin. clear Hjoin Hbody c body.
    destruct (last_is_Some segs) as [_ Hsome]. destruct (Hsome Hne) as [s Hs].
    apply last_Some in Hs as (segs' & ->).
    apply Forall_app in Hall as [_ Hs]. rewrite Forall_singleton in Hs.
    unfold plain in Hs. destruct Hs as (Hsne & _ & _ & Hslash).
    destruct (last_is_Some s) as [_ Hsome']. destruct (Hsome' Hsne) as [x Hx].
    exists x. split.
    - destruct segs' as [|s0 segs''].
      + exact Hx.
      + rewrite joinSegments_snoc by discriminate.
        apply last_app_Some. left. rewrite last_cons, Hx. reflexivity.
    - apply Ascii.eqb_neq. intros ->. apply Hslash. eapply last_Some_elem_of, Hx. }
  reflexivity.
Qed.

Lemma string_of_chars_app (a b : chars) :
  string_of_list_ascii (a ++ b) = string_of_list_ascii a +:+ string_of_list_ascii b.
Proof.
  induction a as [|c a IH]; [reflexivity|].
  change (String c (string_of_list_ascii (a ++ b))
          = String c (string_of_list_ascii a +:+ string_of_list_ascii b)).
  rewrite IH. reflexivity.
Qed.

(** Joining a plain name onto a normalized absolute path puts a slash
    between them, and the result is normalized too. *)
Lemma join_normal (p name : string) (segs : list chars) :
  segs ≠ [] → Forall plain segs →
  list_ascii_of_string p = "/"%char :: joinSegments segs →
  plain (list_ascii_of_string name) →
  Path.join p name = p +:+ "/" +:+ name
  ∧ list_ascii_of_string (p +:+ "/" +:+ name)
    = "/"%char :: joinSegments (segs ++ [list_ascii_of_string name]).
Proof.
  intros Hne Hall Hp Hname.
  assert (list_ascii_of_string (p +:+ "/" +:+ name)
          = "/"%char :: joinSegments (segs ++ [list_ascii_of_string name])) as Hchars.
  { rewrite !chars_app, Hp, joinSegments_snoc by exact Hne. reflexivity. }
  split; [|exact Hchars].
  unfold Path.join, joinChars. rewrite Hp.
  destruct (list_ascii_of_string name) as [|c cs] eqn:Hn.
  { destruct Hname as [Hcontra _]. contradiction. }
  change (("/"%char :: joinSegments segs) ++ "/"%char :: c :: cs)
    with ("/"%char :: (joinSegments segs ++ "/"%char :: c :: cs)).
  rewrite <- joinSegments_snoc by exact Hne.
  rewrite normalizeChars_normal.
  - rewrite <- (string_of_list_ascii_of_string (p +:+ "/" +:+ name)).
    f_equal. symmetry. exact Hchars.
  - intros Hnil. apply app_eq_nil in Hnil as [_ Hnil]. discriminate.
  - apply Forall_app. split; [exact Hall|]. apply Forall_singleton. exact Hname.
Qed.
End JoinFacts.

(* ===================================================================== *)
(** * The output path and its timestamp *)
(* ===================================================================== *)

Module TimestampFacts.
Import JsString Fs Provider Spec PathFacts JoinFacts ArchiveFacts DocumentFacts WalkFacts.

Lemma allFrom_true (p : Z → bool) (count : nat) :
  ∀ start, allFrom p start count = true →
           ∀ z, (start ≤ z < start + Z.of_nat count)%Z → p z = true.
Proof.
  induction count as [|k IH]; intros start Hall z Hz; [lia|].
  cbn [allFrom] in Hall. apply andb_true_iff in Hall as [Hhere Hrest].
  destruct (decide (z = start)) as [->|Hne]; [exact Hhere|].
  apply (IH (start + 1)%Z Hrest). lia.
Qed.

Lemma pad_digits2 (n : Z) : (0 ≤ n ≤ 99)%Z → pad n = digits2 n.
Proof.
  intros Hn. apply String.eqb_eq.
  apply (allFrom_true (fun z => String.eqb (pad z) (digits2 z)) (Z.to_nat 100) 0%Z);
    [vm_compute; reflexivity|lia].
Qed.

Lemma year_digits4 (n : Z) : (1000 ≤ n ≤ 9999)%Z → Number_toString n = digits4 n.
Proof.
  intros Hn. apply String.eqb_eq.
  apply (allFrom_true (fun z => String.eqb (Number_toString z) (digits4 z))
           (Z.to_nat 9000) 1000%Z);
    [vm_compute; reflexivity|lia].
Qed.

(** On a local time with a four-digit year the timestamp is
    [YYYYMMDD-HHmmss]. *)
Lemma formatTimestamp_spec (date : Date) :
  civil date → formatTimestamp date = specTimestamp date.
Proof.
  intros (Hy & Hm & Hd & Hh & Hmin & Hs). unfold formatTimestamp, specTimestamp.
  rewrite year_digits4 by exact Hy.
  rewrite !pad_digits2 by lia. reflexivity.
Qed.

Lemma digit_not_slash (n : Z) : "/"%char ≠ digit n.
Proof.
  unfold digit. assert (Z.to_nat (n mod 10) < 10)%nat as Hlt.
  { pose proof (Z.mod_pos_bound n 10). lia. }
  destruct (Z.to_nat (n mod 10)) as [|[|[|[|[|[|[|[|[|[|k]]]]]]]]]];
    try discriminate. lia.
Qed.

Lemma bundle_name_plain (date : Date) :
  plain (list_ascii_of_string ("bundle-" +:+ specTimestamp date +:+ ".md")).
Proof.
  unfold plain.
  cbv [specTimestamp digits4 digits2 String.append list_ascii_of_string].
  split; [discriminate|]. split; [discriminate|]. split; [discriminate|].
  repeat (apply not_elem_of_cons; split; [first [apply digit_not_slash|discriminate]|]).
  apply not_elem_of_nil.
Qed.

Lemma search_plain : plain (list_ascii_of_string "search").
Proof.
  unfold plain. simpl. split; [discriminate|]. split; [discriminate|].
  split; [discriminate|].
  repeat (apply not_elem_of_cons; split; [discriminate|]). apply not_elem_of_nil.
Qed.

(** The output path under a normalized root. *)
Lemma output_path_literal (root : Uri) (date : Date) :
  normalRoot (fsPath root) →
  targetDirOf root = fsPath root +:+ "/search"
  ∧ Path.join (targetDirOf root) ("bundle-" +:+ specTimestamp date +:+ ".md")
    = fsPath root +:+ "/search/bundle-" +:+ specTimestamp date +:+ ".md".
Proof.
  intros (segs & Hne & Hall & Hp). unfold targetDirOf.
  destruct (join_normal (fsPath root) "search" segs Hne Hall Hp search_plain)
    as [Hjoin Hchars].
  rewrite Hjoin. split; [reflexivity|].
  destruct (join_normal (fsPath root +:+ "/" +:+ "search")
              ("bundle-" +:+ specTimestamp date +:+ ".md")
              (segs ++ [list_ascii_of_string "search"])) as [Hjoin' _].
  - intros Hnil. apply app_eq_nil in Hnil as [_ Hnil]. discriminate.
  - apply Forall_app. split; [exact Hall|]. apply Forall_singleton, search_plain.
  - exact Hchars.
  - apply bundle_name_plain.
  - rewrite Hjoin'. rewrite !append_assoc. reflexivity.
Qed.





End TimestampFacts.

(* ===================================================================== *)
(** * handleAdd: what it reports, what it skips *)
(* ===================================================================== *)

Module AddMore.
Import JsString Fs Provider Spec More JsMapFacts RegistryFacts AddFacts.

Lemma candidate_fate h raw :
  candidate h raw = match fate h raw with Found e => Some e | _ => None end.
Proof.
  destruct raw as [s|]; [|reflexivity].
  destruct s as [|c s]; [reflexivity|].
  cbn [candidate fate].
  destruct (Uri_parse h _) as [u|]; [|reflexivity].
  destruct (getWorkspaceFolder h u); cbn [negb]; [|reflexivity].
  destruct (fs_stat h u) as [ty|]; [|reflexivity].
  destruct (typeOfStat ty); reflexivity.
Qed.

(** The flags and the failures of the loop, from the fates. *)
Lemma foldl_addOne_trace h registry incoming acc :
  failures (foldl (addOne h registry) acc incoming)
  = failures acc
    ++ concat ((fun f => if isThrown f then caught else []) <$> (fate h <$> incoming))
  ∧ outsideWorkspace (foldl (addOne h registry) acc incoming)
    = outsideWorkspace acc || existsb isOutside (fate h <$> incoming)
  ∧ unsupported (foldl (addOne h registry) acc incoming)
    = unsupported acc || existsb isUnsupported (fate h <$> incoming).
Proof.
  revert acc. induction incoming as [|raw rest IH]; intros acc.
  { simpl. rewrite app_nil_r, !orb_false_r. auto. }
  cbn [foldl fmap list_fmap concat existsb].
  destruct (IH (addOne h registry acc raw)) as (Hf & Ho & Hu).
  rewrite Hf, Ho, Hu. clear IH Hf Ho Hu.
  destruct raw as [s|]; [|simpl; auto].
  destruct s as [|c s]; [simpl; auto|].
  cbn [addOne fate].
  destruct (Uri_parse h _) as [u|];
    [|cbn; rewrite <- !app_assoc; auto].
  destruct (getWorkspaceFolder h u); cbn [negb];
    [|cbn; rewrite ?orb_true_r; auto].
  destruct (fs_stat h u) as [ty|];
    [|cbn; rewrite <- !app_assoc; auto].
  destruct (typeOfStat ty) as [t|];
    [|cbn; rewrite ?orb_true_r; auto].
  destruct (JsMap.has (Uri_toString u) registry || bool_decide (Uri_toString u ∈ seen acc));
    cbn; auto.
Qed.

Lemma addLoop_trace h registry incoming :
  failures (addLoop h registry incoming)
  = concat ((fun f => if isThrown f then caught else []) <$> (fate h <$> incoming))
  ∧ outsideWorkspace (addLoop h registry incoming)
    = existsb isOutside (fate h <$> incoming)
  ∧ unsupported (addLoop h registry incoming)
    = existsb isUnsupported (fate h <$> incoming).
Proof. unfold addLoop. apply foldl_addOne_trace. Qed.

Lemma notifyEntries_view status st : view (notifyEntries status st) = view st.
Proof. unfold notifyEntries. destruct (view st) eqn:Hv; simpl; congruence. Qed.

Lemma handleAdd_view h rawUris st : view (handleAdd h rawUris st) = view st.
Proof.
  unfold handleAdd. destruct (Nat.eqb (length (incomingOf rawUris)) 0); [reflexivity|].
  destruct (outsideWorkspace _), (unsupported _), (Nat.ltb 0 _);
    rewrite ?notifyEntries_view; reflexivity.
Qed.

Lemma handleAdd_disk h rawUris st : disk (handleAdd h rawUris st) = disk st.
Proof.
  unfold handleAdd. destruct (Nat.eqb (length (incomingOf rawUris)) 0); [reflexivity|].
  destruct (outsideWorkspace _), (unsupported _), (Nat.ltb 0 _);
    rewrite ?notifyEntries_disk; reflexivity.
Qed.

Lemma handleAdd_length h rawUris st :
  length (entries (handleAdd h rawUris st))
  = length (entries st)
    + length (resolved (addLoop h (entries st) (incomingOf rawUris))).
Proof.
  destruct (addLoop_inv h (entries st) (incomingOf rawUris)) as [Hnd _ Hfresh].
  rewrite handleAdd_entries, setAll_fresh by assumption.
  rewrite length_app, length_fmap. reflexivity.
Qed.

(** X1: what an add lets the user see, and in which order: for every
    locator whose parsing or whose [stat] throws, a line in the log and
    an error message; then one warning when any locator lies outside
    the workspace, however many do; then one warning when any is
    neither file nor directory; then, when an entry was added and the
    panel is attached, the new snapshot with the status [Items added.].
    Nothing else is emitted, and neither the disk nor the view
    changes. *)
Theorem add_reports_failures_then_warns_once_then_refreshes
    (h : Host) (rawUris : RawUris) (st : State) :
  emitted (handleAdd h rawUris st)
  = emitted st
    ++ concat ((fun f => if isThrown f then caught else [])
                 <$> (fate h <$> incomingOf rawUris))
    ++ (if existsb isOutside (fate h <$> incomingOf rawUris)
        then [showWarningMessage "Only workspace files or folders can be added."]
        else [])
    ++ (if existsb isUnsupported (fate h <$> incomingOf rawUris)
        then [showWarningMessage "Only files and folders are supported."]
        else [])
    ++ (if view st
           && negb (Nat.eqb (length (entries (handleAdd h rawUris st)))
                      (length (entries st)))
        then [postMessage (snapshot (handleAdd h rawUris st)) (Some "Items added.")]
        else [])
  ∧ view (handleAdd h rawUris st) = view st
  ∧ disk (handleAdd h rawUris st) = disk st.
Proof.
  split; [|split; [apply handleAdd_view|apply handleAdd_disk]].
  pose proof (handleAdd_length h rawUris st) as Hlen.
  assert (snapshot (handleAdd h rawUris st)
          = shown <$> JsMap.values
              (setAll (resolved (addLoop h (entries st) (incomingOf rawUris)))
                 (entries st))) as Hsnap.
  { unfold snapshot. rewrite handleAdd_entries. reflexivity. }
  rewrite Hsnap, Hlen. clear Hsnap Hlen.
  unfold handleAdd.
  destruct (incomingOf rawUris) as [|raw rest] eqn:Hincoming.
  { simpl. rewrite Nat.add_0_r, Nat.eqb_refl, andb_false_r, !app_nil_r. reflexivity. }
  cbn [length Nat.eqb].
  destruct (addLoop_trace h (entries st) (raw :: rest)) as (Hf & Ho & Hu).
  set (r := addLoop h (entries st) (raw :: rest)) in *.
  rewrite <- Hf, <- Ho, <- Hu. clear Hf Ho Hu.
  assert (negb (Nat.eqb (length (entries st) + length (resolved r)) (length (entries st)))
          = Nat.ltb 0 (length (resolved r))) as ->.
  { destruct (length (resolved r)) as [|n].
    - rewrite Nat.add_0_r, Nat.eqb_refl. reflexivity.
    - assert (Nat.eqb (length (entries st) + S n) (length (entries st)) = false) as ->
        by (apply Nat.eqb_neq; lia).
      reflexivity. }
  unfold notifyEntries, snapshot.
  destruct (outsideWorkspace r), (unsupported r), (Nat.ltb 0 (length (resolved r)));
    cbn [emit emitted with_entries view entries andb];
    destruct (view st); cbn [emit emitted with_entries view entries andb];
    rewrite <- ?app_assoc, ?app_nil_r; reflexivity.
Qed.

Lemma omap_candidate_filter h items :
  omap (candidate h) (List.filter (fun raw => isFound (fate h raw)) items)
  = omap (candidate h) items.
Proof.
  induction items as [|raw rest IH]; [reflexivity|].
  cbn [List.filter omap list_omap].
  pose proof (candidate_fate h raw) as Hc.
  destruct (fate h raw) eqn:Hfate; cbn [isFound];
    cbn [omap list_omap]; rewrite Hc, IH; reflexivity.
Qed.

(** X2: a locator that is passed over, that throws, that lies outside
    the workspace or that is neither file nor directory takes nothing
    away from the others: the batch adds what it would add without
    it. *)
Theorem add_is_not_stopped_by_a_bad_locator
    (h : Host) (items : list RawItem) (st : State) :
  entries (handleAdd h (UrisArray items) st)
  = entries (handleAdd h
               (UrisArray (List.filter (fun raw => isFound (fate h raw)) items)) st).
Proof.
  rewrite !handleAdd_entries. cbn [incomingOf].
  rewrite !addLoop_skipPresent, omap_candidate_filter. reflexivity.
Qed.

Lemma land_bit (a n : Z) :
  (0 ≤ n)%Z → Z.eqb (Z.land a (2 ^ n)) 0 = negb (Z.testbit a n).
Proof.
  intros Hn. destruct (Z.testbit a n) eqn:Hbit; cbn [negb].
  - apply Z.eqb_neq. intros Hzero.
    assert (Z.testbit (Z.land a (2 ^ n)) n = true) as Hand.
    { rewrite Z.land_spec, Hbit, Z.pow2_bits_true by exact Hn. reflexivity. }
    rewrite Hzero, Z.bits_0 in Hand. discriminate.
  - apply Z.eqb_eq, Z.bits_inj'. intros m Hm.
    rewrite Z.land_spec, Z.bits_0.
    destruct (Z.eq_dec n m) as [<-|Hne].
    + rewrite Hbit. reflexivity.
    + rewrite (Z.pow2_bits_false n m) by assumption. apply andb_false_r.
Qed.

(** X3: whether a locator is taken as a file or as a directory is read
    from the two lowest bits of the type [stat] returns, whatever the
    other bits: a file when the first is set, also for a symbolic link
    to a file and also when the second is set too; a directory when
    only the second is set; unsupported when neither is. *)
Theorem kind_is_read_from_two_bits (statType : Z) :
  typeOfStat statType
  = if Z.testbit statType 0 then Some file
    else if Z.testbit statType 1 then Some directory
    else None.
Proof.
  unfold typeOfStat, FileType_File, FileType_Directory.
  change 1%Z with (2 ^ 0)%Z. change 2%Z with (2 ^ 1)%Z.
  rewrite !land_bit by lia. rewrite !negb_involutive. reflexivity.
Qed.
End AddMore.

(* ===================================================================== *)
(** * The registry: removing again, removing what was added *)
(* ===================================================================== *)

Module RegistryMore.
Import JsString Fs Provider Spec More JsMapFacts RegistryFacts AddFacts PackFacts AddMore.

(** X4: removing a key a second time does nothing at all: the state
    after two removals is the state after one, with no second
    refresh. *)
Theorem remove_twice_is_remove_once (k : string) (st : State) :
  removeEntry k (removeEntry k st) = removeEntry k st.
Proof.
  assert (JsMap.has k (entries (removeEntry k st)) = false) as Hgone.
  { apply has_false. rewrite removeEntry_entries.
    apply (delete_gone k (entries st)). }
  unfold removeEntry at 1. unfold JsMap.delete. rewrite Hgone. reflexivity.
Qed.

Lemma filter_app_fresh (k : string) (m : list (string * Entry)) (e : Entry) :
  k ∉ m.*1 →
  filter (fun kv : string * Entry => kv.1 ≠ k) (m ++ [(k, e)]) = m.
Proof.
  intros Hk. rewrite filter_app.
  pose proof (delete_absent k m Hk) as Hm. unfold JsMap.delete in Hm. simpl in Hm.
  rewrite Hm, filter_cons_False by (simpl; tauto).
  apply app_nil_r.
Qed.

(** X5: adding one locator whose key the registry does not hold and
    then removing that key gives back the registry as it was. *)
Theorem remove_undoes_add (h : Host) (raw : RawItem) (e : Entry) (st : State) :
  candidate h raw = Some e →
  key e ∉ (entries st).*1 →
  entries (handleAdd h (UrisArray [raw]) st) = entries st ++ [(key e, e)]
  ∧ entries (removeEntry (key e) (handleAdd h (UrisArray [raw]) st)) = entries st.
Proof.
  intros Hcandidate Hfresh.
  assert (entries (handleAdd h (UrisArray [raw]) st) = entries st ++ [(key e, e)]) as Hadd.
  { destruct (addLoop_inv h (entries st) [raw]) as [Hnd _ Hfresh'].
    rewrite handleAdd_entries. cbn [incomingOf].
    rewrite setAll_fresh by assumption.
    rewrite addLoop_skipPresent. cbn [omap list_omap]. rewrite Hcandidate.
    cbn [skipPresent]. rewrite bool_decide_eq_false_2 by exact Hfresh. reflexivity. }
  split; [exact Hadd|].
  rewrite removeEntry_entries, Hadd. apply filter_app_fresh, Hfresh.
Qed.

Lemma remove_undoes_add_witness :
  entries (removeEntry "file:///w/Makefile"
             (handleAdd (Demo.hostOn Demo.disk0)
                (UrisArray [RawString "file:///w/Makefile"]) Demo.two))
  = entries Demo.two.
Proof.
  refine (proj2 (remove_undoes_add (Demo.hostOn Demo.disk0)
                   (RawString "file:///w/Makefile")
                   {| uri := Demo.fileUri "/w/Makefile"; key := "file:///w/Makefile";
                      relativePath := "Makefile"; type := file |}
                   Demo.two _ _)).
  - vm_compute. reflexivity.
  - apply has_false. vm_compute. reflexivity.
Defined.
End RegistryMore.

(* ===================================================================== *)
(** * packEntries: the missing folder, the disk, the document *)
(* ===================================================================== *)

Module PackMore.
Import JsString Fs Provider Spec More JsMapFacts RegistryFacts AddFacts PackFacts.
Import ArchiveFacts WalkFacts DocumentFacts PathFacts JoinFacts TimestampFacts.





(** X6: with entries in the registry and no workspace folder open, a
    pack ends with [NoRoot] after one error message; the registry and
    the disk are as before, and no entry is checked: the result is the
    same whatever [stat] would answer. *)
Theorem pack_without_workspace_folder (h : Host) (st : State) :
  entries st ≠ [] →
  workspaceFolders h = [] →
  packEntries h st
  = (NoRoot, emit [showErrorMessage "Open a workspace folder to use Zip Packager."] st).
Proof.
  intros Hne Hnone. unfold packEntries.
  destruct (Nat.eqb (JsMap.size (entries st)) 0) eqn:Hsize.
  { apply size_zero in Hsize. contradiction. }
  rewrite Hnone. reflexivity.
Qed.

Lemma pack_without_folder_witness :
  (packEntries (Demo2.hostNoFolder Demo.disk0) Demo.two).1 = NoRoot
  ∧ entries (packEntries (Demo2.hostNoFolder Demo.disk0) Demo.two).2 = entries Demo.two.
Proof.
  rewrite (pack_without_workspace_folder (Demo2.hostNoFolder Demo.disk0) Demo.two).
  - split; reflexivity.
  - vm_compute. discriminate.
  - reflexivity.
Defined.










End PackMore.

(* ===================================================================== *)
(** * The name of the bundle; the language tag as a word *)
(* ===================================================================== *)

Module OutputMore.
Import JsString Fs Provider Spec More JsMapFacts RegistryFacts AddFacts PackFacts.
Import ArchiveFacts WalkFacts DocumentFacts PathFacts JoinFacts TimestampFacts PackMore.

Lemma basename_name (dir name : string) :
  dirPrefix dir → name ≠ "" → lacks "/" name → Path.basename (dir +:+ name) = name.
Proof.
  intros Hdir Hne Hslash. unfold Path.basename.
  rewrite (lastPartRev_name dir name Hdir Hne Hslash), rev_involutive.
  apply string_of_list_ascii_of_string.
Qed.

Lemma bundle_name_lacks_slash (date : Date) :
  lacks "/" ("bundle-" +:+ specTimestamp date +:+ ".md").
Proof. destruct (bundle_name_plain date) as (_ & _ & _ & Hslash). exact Hslash. Qed.

Lemma packEntries_done_emitted h st outputPath st' :
  packEntries h st = (Done outputPath, st') →
  last (emitted st')
  = Some (showInformationMessage ("Created " +:+ Path.basename outputPath +:+ ".")
            ["Open File"]).
Proof.
  unfold packEntries.
  destruct (Nat.eqb (JsMap.size (entries st)) 0); [discriminate|].
  destruct (head (workspaceFolders h)) as [root|]; [|discriminate].
  set (missing := List.filter (fun entry => negb (exists_now h entry))
                    (JsMap.values (entries st))).
  set (existing := List.filter (exists_now h) (JsMap.values (entries st))).
  destruct (Nat.ltb 0 (length missing)); (destruct (Nat.eqb (length existing) 0);
    [discriminate|]);
    (destruct (createArchive h root existing _) as [[p|] d] eqn:Hcreate;
     [|discriminate]);
    intros Hrun; inversion Hrun; subst; cbn [emit emitted]; apply last_snoc.
Qed.

(** X10: the message that ends a pack names the file by its last
    component, [bundle-<timestamp>.md], not by its path, and offers
    [Open File]; it is the last thing the pack emits. *)
Theorem success_message_names_the_bundle
    (h : Host) (st st' : State) (root : Uri) (outputPath : string) :
  packEntries h st = (Done outputPath, st') →
  head (workspaceFolders h) = Some root →
  normalRoot (fsPath root) →
  civil (now h) →
  last (emitted st')
  = Some (showInformationMessage
            ("Created " +:+ ("bundle-" +:+ formatTimestamp (now h) +:+ ".md") +:+ ".")
            ["Open File"]).
Proof.
  intros Hpack Hroot Hnormal Hcivil.
  rewrite (packEntries_done_emitted _ _ _ _ Hpack).
  apply packEntries_done in Hpack as (root' & Hroot' & Hrun).
  rewrite Hroot in Hroot'. inversion Hroot'; subst root'. clear Hroot'.
  apply createArchive_returns in Hrun as (_ & _ & _ & _ & -> & _).
  rewrite (formatTimestamp_spec _ Hcivil).
  destruct (output_path_literal root (now h) Hnormal) as [_ ->].
  assert (fsPath root +:+ "/search/bundle-" +:+ specTimestamp (now h) +:+ ".md"
          = (fsPath root +:+ "/search/")
            +:+ ("bundle-" +:+ specTimestamp (now h) +:+ ".md")) as ->.
  { rewrite !append_assoc. reflexivity. }
  rewrite basename_name; [reflexivity| | |apply bundle_name_lacks_slash].
  - right. exists (fsPath root +:+ "/search"). rewrite append_assoc. reflexivity.
  - discriminate.
Qed.

Lemma digitValue_digit (n : Z) : digitValue (digit n) = (n mod 10)%Z.
Proof.
  unfold digitValue, digit.
  pose proof (Z.mod_pos_bound n 10 ltac:(lia)) as Hbound.
  rewrite nat_ascii_embedding by lia. lia.
Qed.

Lemma number2_digits (n : Z) :
  (0 ≤ n ≤ 99)%Z → number2 (digit (n / 10)) (digit n) = n.
Proof.
  intros Hn. unfold number2. rewrite !digitValue_digit.
  Z.to_euclidean_division_equations. lia.
Qed.

Lemma number4_digits (n : Z) :
  (0 ≤ n ≤ 9999)%Z →
  (100 * number2 (digit (n / 1000)) (digit (n / 100))
   + number2 (digit (n / 10)) (digit n))%Z = n.
Proof.
  intros Hn. unfold number2. rewrite !digitValue_digit.
  Z.to_euclidean_division_equations. lia.
Qed.

Lemma specTimestamp_reads_back (date : Date) :
  civil date → readTimestamp (specTimestamp date) = Some date.
Proof.
  intros (Hy & Hm & Hd & Hh & Hmin & Hs).
  destruct date as [y m d hh mi s]. cbn [getFullYear getMonth getDate getHours
    getMinutes getSeconds] in *.
  unfold readTimestamp.
  cbv [specTimestamp digits4 digits2 String.append list_ascii_of_string
       getFullYear getMonth getDate getHours getMinutes getSeconds].
  rewrite number4_digits by lia. rewrite !number2_digits by lia.
  f_equal. f_equal. lia.
Qed.

(** X11: the timestamp holds the local time to the second: read back
    field by field, [YYYYMMDD-HHmmss] gives the year, the month, the
    day, the hour, the minute and the second it was made from. *)
Theorem timestamp_reads_back (date : Date) :
  civil date → readTimestamp (formatTimestamp date) = Some date.
Proof.
  intros Hcivil.
  rewrite (formatTimestamp_spec date Hcivil).
  exact (specTimestamp_reads_back date Hcivil).
Qed.

Lemma timestamp_reads_back_witness :
  readTimestamp "20240105-090307" = Some Demo.noon.
Proof.
  apply (timestamp_reads_back Demo.noon). unfold civil. simpl. lia.
Defined.

Lemma append_cancel_r (a b s : string) : a +:+ s = b +:+ s → a = b.
Proof.
  intros Heq. apply (f_equal list_ascii_of_string) in Heq.
  rewrite !chars_app in Heq. apply app_inv_tail in Heq.
  rewrite <- (string_of_list_ascii_of_string a), <- (string_of_list_ascii_of_string b).
  rewrite Heq. reflexivity.
Qed.

Lemma output_path_of_normal_root h root :
  normalRoot (fsPath root) → civil (now h) →
  outputPathOf h root
  = fsPath root +:+ "/search/bundle-" +:+ formatTimestamp (now h) +:+ ".md".
Proof.
  intros Hnormal Hcivil. unfold outputPathOf.
  rewrite (formatTimestamp_spec _ Hcivil).
  destruct (output_path_literal root (now h) Hnormal) as [_ ->]. reflexivity.
Qed.

(** X12: two packs under the same root write to the same file exactly
    when their local times agree to the second; a pack in another
    second never writes over an earlier document. *)
Theorem packs_share_a_file_exactly_within_a_second (h1 h2 : Host) (root : Uri) :
  normalRoot (fsPath root) →
  civil (now h1) →
  civil (now h2) →
  outputPathOf h1 root = outputPathOf h2 root ↔ now h1 = now h2.
Proof.
  intros Hnormal Hc1 Hc2.
  rewrite !output_path_of_normal_root by assumption.
  split.
  - intros Heq.
    apply (inj (String.app (fsPath root))) in Heq.
    apply (inj (String.app "/search/bundle-")) in Heq.
    apply append_cancel_r in Heq.
    rewrite !formatTimestamp_spec in Heq by assumption.
    pose proof (specTimestamp_reads_back _ Hc1) as H1.
    pose proof (specTimestamp_reads_back _ Hc2) as H2.
    rewrite Heq in H1. rewrite H1 in H2. inversion H2. reflexivity.
  - intros ->. reflexivity.
Qed.

Lemma normalRoot_w : normalRoot "/w".
Proof.
  exists [["w"%char]]. split; [discriminate|]. split; [|reflexivity].
  apply Forall_singleton. unfold plain. split; [discriminate|].
  split; [discriminate|]. split; [discriminate|].
  apply not_elem_of_cons. split; [discriminate|apply not_elem_of_nil].
Qed.

Lemma civil_noon : civil Demo.noon.
Proof. unfold civil. simpl. lia. Qed.

Lemma civil_later : civil Demo2.later.
Proof. unfold civil. simpl. lia. Qed.

Lemma packs_share_witness :
  outputPathOf (Demo.hostOn Demo.disk0) (Demo.fileUri "/w")
  ≠ outputPathOf (Demo2.hostLater Demo.disk0) (Demo.fileUri "/w").
Proof.
  intros Heq.
  apply (packs_share_a_file_exactly_within_a_second
           (Demo.hostOn Demo.disk0) (Demo2.hostLater Demo.disk0) (Demo.fileUri "/w")
           normalRoot_w civil_noon civil_later) in Heq.
  discriminate Heq.
Defined.

Lemma success_message_witness :
  last (emitted (packEntries (Demo.hostOn Demo.disk0) Demo.one).2)
  = Some (showInformationMessage "Created bundle-20240105-090307.md." ["Open File"]).
Proof.
  apply (success_message_names_the_bundle (Demo.hostOn Demo.disk0) Demo.one
           (packEntries (Demo.hostOn Demo.disk0) Demo.one).2 (Demo.fileUri "/w")
           Demo.bundlePath).
  - vm_compute. reflexivity.
  - reflexivity.
  - exact normalRoot_w.
  - exact civil_noon.
Defined.


End OutputMore.

Module TagMore.
Import JsString Path Provider Spec PathFacts.

Lemma takeWhile_all p (l : list ascii) : Forall (fun c => p c = true) (takeWhile p l).
Proof.
  induction l as [|c l IH]; [constructor|]. simpl.
  destruct (p c) eqn:Hp; [constructor; assumption|constructor].
Qed.

Lemma takeWhile_elem p (l : list ascii) c : c ∈ takeWhile p l → c ∈ l.
Proof.
  induction l as [|x l IH]; [intros H; exact H|]. simpl.
  destruct (p x); [|intros H; apply elem_of_nil in H; contradiction].
  intros [->|Hin]%elem_of_cons; [left|right; apply IH, Hin].
Qed.

Lemma takeWhile_not p c (l : list ascii) : p c = false → c ∉ takeWhile p l.
Proof.
  intros Hp Hin. pose proof (takeWhile_all p l) as Hall.
  rewrite Forall_forall in Hall. specialize (Hall c Hin). congruence.
Qed.

(** The characters after the dot of what [extname] returns are
    characters of the last component, with no dot among them. *)
Lemma extension_chars (path : list ascii) :
  extnameChars path = []
  ∨ ∃ ext, extnameChars path = "."%char :: ext
           ∧ ("."%char ∉ ext) ∧ ("/"%char ∉ ext).
Proof.
  unfold extnameChars.
  set (part := lastPartRev path).
  set (ext := takeWhile (fun c => negb (isDot c)) part).
  assert (("."%char ∉ rev ext) ∧ ("/"%char ∉ rev ext)) as Hclean.
  { split; apply not_in_rev.
    - apply takeWhile_not. reflexivity.
    - intros Hin. apply takeWhile_elem in Hin. unfold part, lastPartRev in Hin.
      revert Hin. apply takeWhile_not. reflexivity. }
  destruct (dropWhile _ part) as [|dotc before]; [left; reflexivity|].
  destruct before as [|c [|c' rest]]; [left; reflexivity| |right; eauto].
  destruct (isDot c && bool_decide (ext = [])); [left; reflexivity|right; eauto].
Qed.

(** X13: the language tag of a fence is never empty and never holds a
    dot or a slash, whatever the file is called. *)
Theorem language_tag_is_one_clean_word (name : string) :
  langTag name ≠ ""
  ∧ lacks "." (langTag name)
  ∧ lacks "/" (langTag name).
Proof.
  unfold langTag, extname, lacks.
  destruct (extension_chars (list_ascii_of_string name))
    as [->|(ext & -> & Hdot & Hslash)].
  - cbn. split; [discriminate|]. split.
    + repeat (apply not_elem_of_cons; split; [discriminate|]). apply not_elem_of_nil.
    + repeat (apply not_elem_of_cons; split; [discriminate|]). apply not_elem_of_nil.
  - cbn [string_of_list_ascii slice1].
    destruct ext as [|c ext'].
    + cbn. split; [discriminate|]. split.
      * repeat (apply not_elem_of_cons; split; [discriminate|]). apply not_elem_of_nil.
      * repeat (apply not_elem_of_cons; split; [discriminate|]). apply not_elem_of_nil.
    + cbn [string_of_list_ascii or_else]. split; [discriminate|].
      change (String c (string_of_list_ascii ext'))
        with (string_of_list_ascii (c :: ext')).
      rewrite list_ascii_of_string_of_list_ascii. split; assumption.
Qed.
End TagMore.

(* ===================================================================== *)
(** * The life of the provider *)
(* ===================================================================== *)

Module LifeFacts.
Import JsString Fs Provider Spec More Life JsMapFacts RegistryFacts AddFacts PackFacts.
Import ArchiveFacts AddMore.

Lemma refreshes_app evs evs' : refreshes (evs ++ evs') = refreshes evs ++ refreshes evs'.
Proof. unfold refreshes. apply omap_app. Qed.

Lemma informs_refl st : informs st st.
Proof.
  split; [reflexivity|]. exists []. rewrite app_nil_r. repeat split; auto.
Qed.

Lemma informs_trans st1 st2 st3 : informs st1 st2 → informs st2 st3 → informs st1 st3.
Proof.
  intros (Hv1 & n1 & He1 & Hoff1 & Hon1) (Hv2 & n2 & He2 & Hoff2 & Hon2).
  split; [congruence|]. exists (n1 ++ n2).
  split; [rewrite He2, He1, app_assoc; reflexivity|].
  split.
  - intros Hv. rewrite Hoff1, Hoff2 by congruence. reflexivity.
  - intros Hv. specialize (Hon1 Hv). specialize (Hon2 ltac:(congruence)).
    destruct n2 as [|post n2 _] using rev_ind.
    + rewrite app_nil_r. simpl in Hon2.
      destruct (last n1); congruence.
    + rewrite app_assoc, last_snoc. rewrite last_snoc in Hon2. exact Hon2.
Qed.

Lemma informs_emit evs st : refreshes evs = [] → informs st (emit evs st).
Proof.
  intros Hevs. split; [reflexivity|]. exists [].
  simpl. rewrite refreshes_app, Hevs. repeat split; auto.
Qed.

Lemma informs_with_disk d st : informs st (with_disk d st).
Proof.
  split; [reflexivity|]. exists []. simpl. rewrite app_nil_r. repeat split; auto.
Qed.

(** Whatever was done to the registry in between, a final
    [notifyEntries] informs the panel. *)
Lemma informs_notify status st mid :
  view mid = view st → refreshes (emitted mid) = refreshes (emitted st) →
  informs st (notifyEntries status mid).
Proof.
  intros Hv He. unfold notifyEntries. rewrite Hv.
  destruct (view st) eqn:Hview.
  - split; [simpl; congruence|]. exists [(snapshot mid, status)].
    simpl. rewrite refreshes_app, He. simpl.
    split; [reflexivity|]. split; [congruence|]. intros _. reflexivity.
  - split; [congruence|]. exists []. rewrite app_nil_r.
    split; [exact He|]. split; [reflexivity|]. congruence.
Qed.

Lemma informs_notify_emit status evs st mid :
  informs st mid → refreshes evs = [] →
  informs st (emit evs (notifyEntries status mid)).
Proof.
  intros Hmid Hevs.
  apply (informs_trans _ mid); [exact Hmid|].
  apply (informs_trans _ (notifyEntries status mid)).
  - apply (informs_notify status mid mid); reflexivity.
  - apply informs_emit, Hevs.
Qed.

Lemma informs_informed st st' : informed st → informs st st' → informed st'.
Proof.
  intros Hst (Hv & news & He & _ & Hon) Hview.
  rewrite Hv in Hview. specialize (Hon Hview). rewrite He.
  destruct news as [|post news _] using rev_ind.
  - rewrite app_nil_r. simpl in Hon. rewrite Hon. apply Hst, Hview.
  - rewrite app_assoc, last_snoc. rewrite last_snoc in Hon.
    destruct post as [rows status]. simpl in Hon. subst rows. eauto.
Qed.

Lemma refreshes_caught (fates : list Fate) :
  refreshes (concat ((fun f => if isThrown f then caught else []) <$> fates)) = [].
Proof.
  induction fates as [|f fates IH]; [reflexivity|].
  cbn [fmap list_fmap concat]. rewrite refreshes_app, IH.
  destruct (isThrown f); reflexivity.
Qed.

Lemma informs_clearAll st : informs st (clearAll st).
Proof.
  unfold clearAll. destruct (Nat.eqb _ 0).
  - apply informs_emit. reflexivity.
  - apply informs_notify; reflexivity.
Qed.

Lemma informs_removeEntry k st : informs st (removeEntry k st).
Proof.
  unfold removeEntry. destruct (JsMap.delete k (entries st)) as [deleted m].
  destruct deleted; cbn [negb].
  - apply informs_notify; reflexivity.
  - apply informs_refl.
Qed.

Lemma informs_refresh st : informs st (refresh st).
Proof. apply informs_notify; reflexivity. Qed.

Lemma informs_handleAdd h rawUris st : informs st (handleAdd h rawUris st).
Proof.
  unfold handleAdd.
  destruct (Nat.eqb (length (incomingOf rawUris)) 0); [apply informs_refl|].
  destruct (addLoop_trace h (entries st) (incomingOf rawUris)) as (Hf & _ & _).
  pose proof (addLoop_inv h (entries st) (incomingOf rawUris)) as [Hnd _ Hfresh].
  set (r := addLoop h (entries st) (incomingOf rawUris)) in *.
  assert (refreshes (failures r) = []) as Hquiet
    by (rewrite Hf; apply refreshes_caught).
  destruct (Nat.ltb 0 (length (resolved r))) eqn:Hlen.
  - apply informs_notify.
    + destruct (outsideWorkspace r), (unsupported r); reflexivity.
    + destruct (outsideWorkspace r), (unsupported r); simpl;
        rewrite ?refreshes_app, Hquiet; simpl; rewrite ?app_nil_r; reflexivity.
  - apply Nat.ltb_ge in Hlen.
    destruct (resolved r) as [|e l] eqn:Hres; [|simpl in Hlen; lia].
    split; [destruct (outsideWorkspace r), (unsupported r); reflexivity|].
    exists []. rewrite app_nil_r.
    split; [|split; [reflexivity|]].
    + destruct (outsideWorkspace r), (unsupported r); simpl;
        rewrite ?refreshes_app, Hquiet; simpl; rewrite ?app_nil_r; reflexivity.
    + intros _. destruct (outsideWorkspace r), (unsupported r); reflexivity.
Qed.

Lemma informs_packEntries h st : informs st (packEntries h st).2.
Proof.
  unfold packEntries. destruct (Nat.eqb (JsMap.size (entries st)) 0).
  { apply informs_emit. reflexivity. }
  destruct (head (workspaceFolders h)) as [folder|]; [|apply informs_emit; reflexivity].
  set (missing := List.filter (fun entry => negb (exists_now h entry))
                    (JsMap.values (entries st))).
  set (existing := List.filter (exists_now h) (JsMap.values (entries st))).
  set (st1 := with_entries (deleteAll missing (entries st)) st).
  set (st2 := if Nat.ltb 0 (length missing) then _ else st1).
  assert (informs st st2) as Hst2.
  { subst st2. destruct (Nat.ltb 0 (length missing)) eqn:Hm.
    - apply (informs_trans _ (notifyEntries None st1)).
      + apply (informs_notify None st st1); reflexivity.
      + apply informs_emit. reflexivity.
    - apply Nat.ltb_ge in Hm.
      destruct missing as [|e l] eqn:Hmissing; [|simpl in Hm; lia].
      subst st1. simpl. destruct st; apply informs_refl. }
  clearbody st2.
  destruct (Nat.eqb (length existing) 0).
  { simpl. apply informs_notify_emit; [exact Hst2|reflexivity]. }
  set (st3 := emit _ st2).
  assert (informs st st3) as Hst3.
  { apply (informs_trans _ st2); [exact Hst2|]. apply informs_emit. reflexivity. }
  clearbody st3.
  destruct (createArchive h folder existing (disk st3)) as [[outputPath|] d]; simpl.
  - apply informs_notify_emit; [|reflexivity].
    apply (informs_trans _ st3); [exact Hst3|apply informs_with_disk].
  - apply (informs_trans _ (with_disk d st3)); [|apply informs_emit; reflexivity].
    apply (informs_trans _ st3); [exact Hst3|apply informs_with_disk].
Qed.

Lemma informs_onDidReceiveMessage h m st : informs st (onDidReceiveMessage st (h, m)).
Proof.
  destruct m; simpl.
  - apply informs_handleAdd.
  - apply informs_removeEntry.
  - apply informs_clearAll.
  - apply informs_packEntries.
  - apply informs_refl.
Qed.

Lemma informs_executeCommand h c st : informs st (executeCommand h c st).
Proof.
  destruct c; simpl.
  - apply informs_refresh.
  - apply informs_clearAll.
  - apply informs_packEntries.
Qed.

Lemma informed_act x a : informed (provider x) → informed (provider (act x a)).
Proof.
  intros Hx. destruct a as [page|h m|h c|]; simpl.
  - intros _. unfold notifyEntries. simpl.
    exists None. rewrite refreshes_app. simpl. rewrite last_snoc. reflexivity.
  - destruct (listening x); [|exact Hx].
    simpl. eapply informs_informed; [exact Hx|apply informs_onDidReceiveMessage].
  - eapply informs_informed; [exact Hx|apply informs_executeCommand].
  - intros Hv. discriminate Hv.
Qed.

Lemma informed_run actions x : informed (provider x) → informed (provider (run actions x)).
Proof.
  revert x. induction actions as [|a actions IH]; intros x Hx; [exact Hx|].
  apply IH, informed_act, Hx.
Qed.

(** X14: whatever happens to the extension after its activation
    (panels resolved, messages received, commands executed, the
    provider disposed of), as long as a panel is attached the snapshot
    posted last is the registry as it is: the panel never shows a stale
    list. *)
Theorem the_panel_is_never_stale (d : Disk) (actions : list Action) :
  view (provider (run actions (activated d))) = true →
  ∃ status,
    last (refreshes (emitted (provider (run actions (activated d)))))
    = Some (snapshot (provider (run actions (activated d))), status).
Proof.
  apply (informed_run actions (activated d)). intros Hv. discriminate Hv.
Qed.

Lemma never_stale_witness :
  ∃ status,
    last (refreshes (emitted (provider (run Demo2.session (activated Demo.disk0)))))
    = Some (snapshot (provider (run Demo2.session (activated Demo.disk0))), status).
Proof.
  apply (the_panel_is_never_stale Demo.disk0 Demo2.session).
  vm_compute. reflexivity.
Defined.

Lemma quiet_act x a :
  view (provider x) = false → isResolve a = false →
  view (provider (act x a)) = false
  ∧ refreshes (emitted (provider (act x a))) = refreshes (emitted (provider x)).
Proof.
  intros Hv Ha.
  assert (∀ st', informs (provider x) st' →
            view st' = false ∧ refreshes (emitted st') = refreshes (emitted (provider x)))
    as Hquiet.
  { intros st' (Hv' & news & He & Hoff & _). split; [congruence|].
    rewrite He, (Hoff Hv), app_nil_r. reflexivity. }
  destruct a as [page|h m|h c|]; simpl; [discriminate Ha| | |auto].
  - destruct (listening x); [|auto]. simpl. apply Hquiet, informs_onDidReceiveMessage.
  - apply Hquiet, informs_executeCommand.
Qed.

(** X15: without a panel nothing is posted: from a provider with no
    view, actions other than resolving a panel post no snapshot,
    whatever they do to the registry, and leave the provider without a
    view. *)
Theorem nothing_is_posted_without_a_panel (x : Extension) (actions : list Action) :
  view (provider x) = false →
  forallb (fun a => negb (isResolve a)) actions = true →
  refreshes (emitted (provider (run actions x))) = refreshes (emitted (provider x))
  ∧ view (provider (run actions x)) = false.
Proof.
  revert x. induction actions as [|a actions IH]; intros x Hv Hall; [auto|].
  simpl in Hall. apply andb_prop in Hall as [Ha Hall].
  apply negb_true_iff in Ha.
  destruct (quiet_act x a Hv Ha) as [Hv' He].
  destruct (IH (act x a) Hv' Hall) as [He' Hv''].
  simpl. split; [congruence|exact Hv''].
Qed.

Lemma nothing_posted_witness :
  refreshes (emitted (provider (run Demo2.commands (activated Demo.disk0)))) = [].
Proof.
  apply (nothing_is_posted_without_a_panel (activated Demo.disk0) Demo2.commands).
  - reflexivity.
  - reflexivity.
Defined.

Lemma attached_act x a :
  isDispose a = false →
  (listening x = true → view (provider x) = true) →
  (listening x = false → entries (provider x) = []) →
  (listening (act x a) = true → view (provider (act x a)) = true)
  ∧ (listening (act x a) = false → entries (provider (act x a)) = []).
Proof.
  intros Ha Hon Hoff.
  assert (∀ st', informs (provider x) st' → view st' = view (provider x)) as Hview
    by (intros st' [Hv _]; exact Hv).
  destruct a as [page|h m|h c|]; simpl; [| | |discriminate Ha].
  - split; [|discriminate]. intros _. reflexivity.
  - destruct (listening x) eqn:Hl; simpl.
    + split; [|congruence].
      intros _. rewrite (Hview _ (informs_onDidReceiveMessage h m _)). auto.
    + split; [congruence|auto].
  - split.
    + intros Hl. rewrite (Hview _ (informs_executeCommand h c _)). auto.
    + intros Hl. specialize (Hoff Hl).
      destruct c; simpl.
      * unfold refresh. rewrite notifyEntries_entries. exact Hoff.
      * unfold clearAll. rewrite Hoff. simpl. exact Hoff.
      * unfold packEntries. rewrite Hoff. simpl. exact Hoff.
Qed.

(** X16: the registry fills only through a panel: as long as the
    provider is not disposed of, a registry that holds an entry has a
    panel attached, so its content is on display. *)
Theorem entries_are_always_on_display (d : Disk) (actions : list Action) :
  forallb (fun a => negb (isDispose a)) actions = true →
  entries (provider (run actions (activated d))) ≠ [] →
  view (provider (run actions (activated d))) = true.
Proof.
  intros Hall Hne.
  assert (∀ x, forallb (fun a => negb (isDispose a)) actions = true →
            (listening x = true → view (provider x) = true) →
            (listening x = false → entries (provider x) = []) →
            (listening (run actions x) = true → view (provider (run actions x)) = true)
            ∧ (listening (run actions x) = false → entries (provider (run actions x)) = []))
    as Hinv.
  { clear. induction actions as [|a actions IH]; intros x Hall Hon Hoff; [auto|].
    simpl in Hall. apply andb_prop in Hall as [Ha Hall]. apply negb_true_iff in Ha.
    destruct (attached_act x a Ha Hon Hoff) as [Hon' Hoff'].
    apply (IH (act x a) Hall Hon' Hoff'). }
  destruct (Hinv (activated d) Hall) as [Hon Hoff]; [discriminate|reflexivity|].
  destruct (listening (run actions (activated d))) eqn:Hl; [auto|].
  destruct Hne. auto.
Qed.

Lemma on_display_witness :
  view (provider (run Demo2.session (activated Demo.disk0))) = true.
Proof.
  apply (entries_are_always_on_display Demo.disk0 Demo2.session).
  - reflexivity.
  - vm_compute. discriminate.
Defined.

End LifeFacts.

(* ===================================================================== *)
(** * The script of the panel *)
(* ===================================================================== *)

Module PanelFacts.
Import JsString Provider Spec Panel.

Lemma handleAll_snoc events ev sc :
  handleAll (events ++ [ev]) sc = handle (handleAll events sc) ev.
Proof. unfold handleAll. rewrite foldl_app. reflexivity. Qed.

(** ** The list and the button *)

Lemma shows_loaded saved : shows (loaded saved).
Proof. destruct saved as [rows|]; split; reflexivity. Qed.

Lemma shows_setStatus text sc : shows sc → shows (setStatus text sc).
Proof. intros Hsc. destruct text; exact Hsc. Qed.

Lemma shows_handle sc ev : shows sc → shows (handle sc ev).
Proof.
  intros Hsc. destruct ev as [| |data| | |index| |m|id]; simpl; try exact Hsc.
  - unfold onDrop. destruct (Nat.ltb 0 _); exact Hsc.
  - unfold onRemoveClick. destruct (entriesList sc !! index) as [item|]; [|exact Hsc].
    destruct (remove_dataKey item); exact Hsc.
  - destruct m as [rows status|text|]; simpl; [| |exact Hsc].
    + destruct status as [[|c text]|]; split; reflexivity.
    + apply shows_setStatus, Hsc.
  - unfold timeout. destruct (bool_decide _); exact Hsc.
Qed.

Lemma shows_handleAll events sc : shows sc → shows (handleAll events sc).
Proof.
  revert sc. induction events as [|ev events IH]; intros sc Hsc; [exact Hsc|].
  apply IH, shows_handle, Hsc.
Qed.

(** X17: after whatever the script went through, the button [Pack All]
    is disabled exactly when the list on display is empty. *)
Theorem pack_button_is_disabled_exactly_on_an_empty_list
    (saved : option (list Shown)) (events : list DomEvent) :
  packButton_disabled (handleAll events (loaded saved)) = true
  ↔ entriesList (handleAll events (loaded saved)) = [].
Proof.
  destruct (shows_handleAll events _ (shows_loaded saved)) as [Hlist Hbutton].
  rewrite Hlist, Hbutton.
  destruct (default [] (savedState _)) as [|row rows]; simpl; split; congruence.
Qed.

(** X18: the state the script keeps is enough to restore it: a script
    loaded again on the state kept by another shows the same list and
    the same button as that one did. *)
Theorem reload_shows_the_same_list
    (saved : option (list Shown)) (events : list DomEvent) :
  entriesList (loaded (savedState (handleAll events (loaded saved))))
  = entriesList (handleAll events (loaded saved))
  ∧ packButton_disabled (loaded (savedState (handleAll events (loaded saved))))
    = packButton_disabled (handleAll events (loaded saved)).
Proof.
  destruct (shows_handleAll events _ (shows_loaded saved)) as [Hlist Hbutton].
  destruct (shows_loaded (savedState (handleAll events (loaded saved)))) as [Hlist' Hbutton'].
  rewrite Hlist, Hbutton, Hlist', Hbutton'.
  destruct (savedState (handleAll events (loaded saved))) as [rows|]; split; reflexivity.
Qed.

(** ** The status and its timeout *)

Lemma timed_loaded saved : timed (loaded saved).
Proof. destruct saved as [rows|]; split; simpl; congruence. Qed.

Lemma timed_pending sc :
  timed sc → clearTimeout (hideStatusHandle sc) (timeouts sc) = [].
Proof.
  intros [_ Hsc]. destruct (statusLine_textContent sc).
  - rewrite Hsc. destruct (hideStatusHandle sc); reflexivity.
  - destruct Hsc as (id & Hh & Ht). rewrite Hh, Ht. simpl.
    rewrite Nat.eqb_refl. reflexivity.
Qed.

Lemma timed_setStatus text sc : timed sc → timed (setStatus text sc).
Proof.
  intros Hsc. pose proof (timed_pending sc Hsc) as Hp. destruct Hsc as [Hh _].
  unfold setStatus. destruct text as [|c text]; split; simpl.
  - exact Hh.
  - exact Hp.
  - intros id [= <-]. lia.
  - exists (nextTimeout sc). rewrite Hp. auto.
Qed.

Lemma timed_clearStatus sc : timed sc → timed (clearStatus sc).
Proof.
  intros Hsc. pose proof (timed_pending sc Hsc) as Hp. destruct Hsc as [Hh _].
  split; [exact Hh|exact Hp].
Qed.

Lemma timed_renderEntries rows sc : timed sc → timed (renderEntries rows sc).
Proof. intros Hsc. exact Hsc. Qed.

Lemma timed_handle sc ev : timed sc → timed (handle sc ev).
Proof.
  intros Hsc. destruct ev as [| |data| | |index| |m|id]; simpl; try exact Hsc.
  - unfold onDrop. destruct (Nat.ltb 0 _); exact Hsc.
  - unfold onRemoveClick. destruct (entriesList sc !! index) as [item|]; [|exact Hsc].
    destruct (remove_dataKey item); exact Hsc.
  - destruct m as [rows status|text|]; simpl; [| |exact Hsc].
    + destruct status as [[|c text]|].
      * apply timed_clearStatus, timed_renderEntries, Hsc.
      * apply timed_setStatus, timed_renderEntries, Hsc.
      * apply timed_clearStatus, timed_renderEntries, Hsc.
    + apply timed_setStatus, Hsc.
  - unfold timeout. destruct (bool_decide_reflect (id ∈ timeouts sc)) as [Hin|]; [|exact Hsc].
    destruct Hsc as [Hh Hsc]. split; [exact Hh|]. simpl.
    destruct (statusLine_textContent sc).
    + rewrite Hsc. reflexivity.
    + destruct Hsc as (id' & _ & Ht). rewrite Ht in Hin |- *.
      apply list_elem_of_singleton in Hin as ->. simpl.
      rewrite Nat.eqb_refl. reflexivity.
Qed.

Lemma timed_handleAll events sc : timed sc → timed (handleAll events sc).
Proof.
  revert sc. induction events as [|ev events IH]; intros sc Hsc; [exact Hsc|].
  apply IH, timed_handle, Hsc.
Qed.

(** X19: a status on display always has its timeout pending, so it
    will be hidden; and no other timeout is pending, neither beside it
    nor when no status is on display, so a status is never hidden by
    the timeout of an earlier one. *)
Theorem a_status_has_exactly_its_own_timeout
    (saved : option (list Shown)) (events : list DomEvent) :
  (statusLine_textContent (handleAll events (loaded saved)) = ""
   → timeouts (handleAll events (loaded saved)) = [])
  ∧ (statusLine_textContent (handleAll events (loaded saved)) ≠ ""
     → ∃ id, hideStatusHandle (handleAll events (loaded saved)) = Some id
             ∧ timeouts (handleAll events (loaded saved)) = [id]).
Proof.
  destruct (timed_handleAll events _ (timed_loaded saved)) as [_ Hsc].
  destruct (statusLine_textContent _); split; congruence.
Qed.

(** ** The locators of a drop *)

Lemma dropWhile_suffix p l : ∃ pre, l = pre ++ dropWhile p l.
Proof.
  induction l as [|c l [pre IH]]; [exists []; reflexivity|].
  simpl. destruct (p c); [|exists []; reflexivity].
  exists (c :: pre). simpl. congruence.
Qed.

Lemma dropWhile_head p l c : head (dropWhile p l) = Some c → p c = false.
Proof.
  induction l as [|c' l IH]; [discriminate|].
  simpl. destruct (p c') eqn:Hc; [exact IH|].
  simpl. congruence.
Qed.

Lemma dropWhile_keep p l :
  (∀ c, head l = Some c → p c = false) → dropWhile p l = l.
Proof.
  destruct l as [|c l]; [reflexivity|].
  intros Hc. simpl. rewrite (Hc c eq_refl). reflexivity.
Qed.

Lemma head_rev {A} (l : list A) : head (rev l) = last l.
Proof.
  induction l as [|a l _] using rev_ind; [reflexivity|].
  rewrite rev_app_distr, last_snoc. reflexivity.
Qed.

Lemma last_rev {A} (l : list A) : last (rev l) = head l.
Proof. rewrite <- (rev_involutive l) at 2. symmetry. apply head_rev. Qed.

Lemma head_app_some {A} (l k : list A) a : head l = Some a → head (l ++ k) = Some a.
Proof. destruct l; [discriminate|auto]. Qed.

Lemma trim_elem c l : c ∈ trim l → c ∈ l.
Proof.
  unfold trim. intros Hin.
  destruct (dropWhile_suffix isWhiteSpace l) as [pre Hl].
  destruct (dropWhile_suffix isWhiteSpace (rev (dropWhile isWhiteSpace l))) as [pre' Hl'].
  rewrite Hl. apply elem_of_app. right.
  apply list_elem_of_In, in_rev, list_elem_of_In. rewrite Hl'.
  apply elem_of_app. right.
  apply list_elem_of_In, in_rev, list_elem_of_In. exact Hin.
Qed.

Lemma trim_last l c : last (trim l) = Some c → isWhiteSpace c = false.
Proof.
  unfold trim. rewrite last_rev. apply dropWhile_head.
Qed.

Lemma trim_head l c : head (trim l) = Some c → isWhiteSpace c = false.
Proof.
  unfold trim. intros Hc.
  set (m := dropWhile isWhiteSpace l) in *.
  destruct (dropWhile_suffix isWhiteSpace (rev m)) as [pre Hm].
  apply (dropWhile_head isWhiteSpace l). fold m.
  rewrite <- (rev_involutive m), Hm, rev_app_distr.
  apply head_app_some, Hc.
Qed.

Lemma splitLines_lines s : Forall (fun line => 10%N ∉ line) (splitLines s).
Proof.
  induction s as [|c s IH]; simpl.
  - repeat constructor. apply not_elem_of_nil.
  - destruct (N.eqb_spec c 10) as [->|Hc].
    + constructor; [apply not_elem_of_nil|exact IH].
    + destruct (splitLines s) as [|line lines].
      * repeat constructor. rewrite list_elem_of_singleton. congruence.
      * inversion IH as [|? ? Hline Hlines]; subst. constructor; [|exact Hlines].
        rewrite not_elem_of_cons. auto.
Qed.

Lemma urisOf_clean uriList : Forall clean (urisOf uriList).
Proof.
  unfold urisOf. apply Forall_forall. intros u Hu.
  apply list_elem_of_In, filter_In in Hu as [Hu Hne].
  apply list_elem_of_In, list_elem_of_fmap in Hu as (line & -> & Hline).
  pose proof (splitLines_lines uriList) as Hlines.
  rewrite Forall_forall in Hlines. specialize (Hlines line Hline).
  split; [destruct (trim line); [discriminate|congruence]|].
  split; [intros Hin; apply Hlines, trim_elem, Hin|].
  split; [apply trim_head|apply trim_last].
Qed.

Lemma posted_handle_add sc ev uris :
  PostAdd uris ∈ posted (handle sc ev) →
  PostAdd uris ∈ posted sc ∨ (uris ≠ [] ∧ Forall clean uris).
Proof.
  destruct ev as [| |data| | |index| |m|id]; simpl; auto.
  - unfold onDrop. destruct (Nat.ltb 0 _) eqn:Hlen; simpl; [|auto].
    rewrite elem_of_app, list_elem_of_singleton. intros [Hin|[= ->]]; [auto|].
    right. split; [|apply urisOf_clean].
    apply Nat.ltb_lt in Hlen. intros Hnil. rewrite Hnil in Hlen. simpl in Hlen. lia.
  - rewrite elem_of_app, list_elem_of_singleton. intros [Hin|[=]]. auto.
  - rewrite elem_of_app, list_elem_of_singleton. intros [Hin|[=]]. auto.
  - unfold onRemoveClick. destruct (entriesList sc !! index) as [item|]; [|auto].
    destruct (remove_dataKey item); [auto|]. simpl.
    rewrite elem_of_app, list_elem_of_singleton. intros [Hin|[=]]. auto.
  - destruct m as [rows status|text|]; simpl; [| |auto].
    + destruct status as [[|c text]|]; simpl; auto.
    + destruct (default "" text); simpl; auto.
  - unfold timeout. destruct (bool_decide _); auto.
Qed.

(** X20: whatever is dropped on the panel, whenever the script asks to
    add, it names at least one locator, and every locator it names is
    clean: not empty, without a line feed, and without white space at
    either end. *)
Theorem the_script_asks_to_add_clean_locators_only
    (saved : option (list Shown)) (events : list DomEvent) (uris : list (list N)) :
  PostAdd uris ∈ posted (handleAll events (loaded saved)) →
  uris ≠ [] ∧ Forall clean uris.
Proof.
  induction events as [|ev events IH] using rev_ind.
  - destruct saved; simpl; intros Hin; apply elem_of_nil in Hin; contradiction.
  - rewrite handleAll_snoc. intros Hin.
    apply posted_handle_add in Hin as [Hin|Hgood]; auto.
Qed.

Lemma clean_drop_witness :
  [[102; 105; 108; 101; 58; 47; 97]]%N ≠ []
  ∧ Forall clean [[102; 105; 108; 101; 58; 47; 97]]%N.
Proof.
  apply (the_script_asks_to_add_clean_locators_only None
           [DragOver; Drop (Some [32; 102; 105; 108; 101; 58; 47; 97; 13; 10; 10; 9]%N)]).
  vm_compute. apply list_elem_of_singleton. reflexivity.
Defined.

Lemma splitLines_line u rest :
  10%N ∉ u → splitLines (u ++ 10%N :: rest) = u :: splitLines rest.
Proof.
  induction u as [|c u IH]; intros Hu; [reflexivity|].
  apply not_elem_of_cons in Hu as [Hc Hu].
  simpl. destruct (N.eqb_spec c 10) as [->|_]; [congruence|].
  rewrite (IH Hu). reflexivity.
Qed.

Lemma trim_clean_cr u : clean u → trim (u ++ [13%N]) = u.
Proof.
  intros (Hne & _ & Hhead & Hlast). unfold trim.
  rewrite (dropWhile_keep isWhiteSpace (u ++ [13%N])).
  2:{ intros c Hc. destruct u as [|c' u]; [congruence|]. apply Hhead. exact Hc. }
  rewrite rev_app_distr. simpl.
  rewrite dropWhile_keep; [apply rev_involutive|].
  intros c. rewrite head_rev. apply Hlast.
Qed.

(** X21: a list of clean locators written one per line, each line ended
    by CR LF, is read back as it was: the same locators in the same
    order, with nothing added. *)
Theorem a_uri_list_is_read_back (uris : list (list N)) :
  Forall clean uris → urisOf (uriListOf uris) = uris.
Proof.
  induction 1 as [|u uris Hu _ IH]; [reflexivity|].
  unfold urisOf in *. simpl.
  replace (u ++ 13%N :: 10%N :: uriListOf uris)
    with ((u ++ [13%N]) ++ 10%N :: uriListOf uris)
    by (rewrite <- app_assoc; reflexivity).
  rewrite splitLines_line.
  2:{ destruct Hu as (_ & Hlf & _). rewrite elem_of_app, list_elem_of_singleton.
      intros [Hin|[=]]. contradiction. }
  cbn [fmap list_fmap]. rewrite (trim_clean_cr u Hu).
  cbn [List.filter]. destruct Hu as (Hne & _).
  destruct u as [|c u]; [congruence|]. cbn [nonEmpty].
  f_equal. exact IH.
Qed.

Lemma a_uri_list_witness :
  urisOf [102; 105; 108; 101; 58; 47; 97; 13; 10; 102; 105; 108; 101; 58; 47; 98; 32; 99;
          13; 10]%N
  = [[102; 105; 108; 101; 58; 47; 97]; [102; 105; 108; 101; 58; 47; 98; 32; 99]]%N.
Proof.
  apply (a_uri_list_is_read_back
           [[102; 105; 108; 101; 58; 47; 97]; [102; 105; 108; 101; 58; 47; 98; 32; 99]]%N).
  constructor; [|constructor; [|constructor]].
  - split; [discriminate|]. split; [|split; intros c; simpl; intros [= <-]; reflexivity].
    rewrite !not_elem_of_cons. repeat split; try discriminate. apply not_elem_of_nil.
  - split; [discriminate|]. split; [|split; intros c; simpl; intros [= <-]; reflexivity].
    rewrite !not_elem_of_cons. repeat split; try discriminate. apply not_elem_of_nil.
Defined.

End PanelFacts.

(* ===================================================================== *)
(** * The panel and the provider together *)
(* ===================================================================== *)

Module PanelAndProvider.
Import JsString Fs Provider Spec More Life Panel.
Import JsMapFacts RegistryFacts AddFacts PackFacts ArchiveFacts LifeFacts PanelFacts.

(** ** What the script asks to remove *)

Lemma rowsGiven_snoc saved events ev :
  rowsGiven saved (events ++ [ev]) = rowsGiven saved events ++ rowsOf ev.
Proof.
  unfold rowsGiven. rewrite fmap_app, concat_app. simpl.
  rewrite app_nil_r, app_assoc. reflexivity.
Qed.

Lemma savedState_setStatus text sc : savedState (setStatus text sc) = savedState sc.
Proof. destruct text; reflexivity. Qed.

Lemma savedState_handle sc ev :
  default [] (savedState (handle sc ev)) = default [] (savedState sc)
  ∨ default [] (savedState (handle sc ev)) = rowsOf ev.
Proof.
  destruct ev as [| |data| | |index| |m|id]; simpl; auto.
  - unfold onDrop. destruct (Nat.ltb 0 _); auto.
  - unfold onRemoveClick. destruct (entriesList sc !! index) as [item|]; [|auto].
    destruct (remove_dataKey item); auto.
  - destruct m as [rows status|text|]; simpl; [| |auto].
    + right. destruct status as [[|c text]|], rows; reflexivity.
    + rewrite savedState_setStatus. auto.
  - unfold timeout. destruct (bool_decide _); auto.
Qed.

Lemma posted_handle_remove sc ev k :
  PostRemove k ∈ posted (handle sc ev) →
  PostRemove k ∈ posted sc
  ∨ (k ≠ "" ∧ ∃ item, item ∈ entriesList sc ∧ remove_dataKey item = k).
Proof.
  destruct ev as [| |data| | |index| |m|id]; simpl; auto.
  - unfold onDrop. destruct (Nat.ltb 0 _); simpl; [|auto].
    rewrite elem_of_app, list_elem_of_singleton. intros [Hin|[=]]. auto.
  - rewrite elem_of_app, list_elem_of_singleton. intros [Hin|[=]]. auto.
  - rewrite elem_of_app, list_elem_of_singleton. intros [Hin|[=]]. auto.
  - unfold onRemoveClick. destruct (entriesList sc !! index) as [item|] eqn:Hitem; [|auto].
    destruct (remove_dataKey item) as [|c key] eqn:Hkey; [auto|]. simpl.
    rewrite elem_of_app, list_elem_of_singleton. intros [Hin|[= ->]]; [auto|].
    right. split; [discriminate|]. exists item.
    split; [apply (list_elem_of_lookup_2 _ index), Hitem|exact Hkey].
  - destruct m as [rows status|text|]; simpl; [| |auto].
    + destruct status as [[|c text]|]; simpl; auto.
    + destruct (default "" text); simpl; auto.
  - unfold timeout. destruct (bool_decide _); auto.
Qed.

(** X22: the script never asks to remove the empty key, nor a key that
    was not among the rows it was given, by the state kept for it or by
    a message. *)
Theorem the_script_asks_to_remove_given_keys_only
    (saved : option (list Shown)) (events : list DomEvent) (k : string) :
  PostRemove k ∈ posted (handleAll events (loaded saved)) →
  k ≠ "" ∧ k ∈ shown_key <$> rowsGiven saved events.
Proof.
  assert (Forall (fun row => row ∈ rowsGiven saved events)
            (default [] (savedState (handleAll events (loaded saved))))
          ∧ (PostRemove k ∈ posted (handleAll events (loaded saved)) →
             k ≠ "" ∧ k ∈ shown_key <$> rowsGiven saved events)) as [_ Hposted];
    [|exact Hposted].
  induction events as [|ev events [IHrows IHposted]] using rev_ind.
  - split.
    + apply Forall_forall. intros row Hrow. unfold rowsGiven. simpl.
      rewrite app_nil_r. destruct saved; exact Hrow.
    + destruct saved; simpl; intros Hin; apply elem_of_nil in Hin; contradiction.
  - rewrite handleAll_snoc, rowsGiven_snoc.
    pose proof (shows_handleAll events _ (shows_loaded saved)) as [Hlist _].
    set (sc := handleAll events (loaded saved)) in *.
    split.
    + apply Forall_forall. intros row Hrow. apply elem_of_app.
      destruct (savedState_handle sc ev) as [Heq|Heq]; rewrite Heq in Hrow.
      * left. rewrite Forall_forall in IHrows. apply IHrows, Hrow.
      * right. exact Hrow.
    + intros Hin. rewrite fmap_app, elem_of_app.
      apply posted_handle_remove in Hin as [Hin|(Hne & item & Hitem & Hkey)].
      * destruct (IHposted Hin). auto.
      * split; [exact Hne|]. left.
        rewrite Hlist in Hitem.
        apply list_elem_of_fmap in Hitem as (row & -> & Hrow).
        rewrite Forall_forall in IHrows.
        apply list_elem_of_fmap. exists row. split; [auto|apply IHrows, Hrow].
Qed.

Lemma remove_given_witness :
  "file:///w/a.py" ≠ ""
  ∧ "file:///w/a.py"
    ∈ shown_key <$> rowsGiven None
        [Message (MsgEntries (Some (snapshot Demo.two)) (Some "Items added."));
         ClickRemove 0].
Proof.
  apply (the_script_asks_to_remove_given_keys_only None
           [Message (MsgEntries (Some (snapshot Demo.two)) (Some "Items added."));
            ClickRemove 0]).
  vm_compute. apply list_elem_of_singleton. reflexivity.
Defined.

(** ** The panel given what the provider posts *)

Lemma deliver_snoc evs ev sc :
  deliver (evs ++ [ev]) sc
  = match ev with
    | Provider.postMessage rows status =>
        onMessage (MsgEntries (Some rows) status) (deliver evs sc)
    | _ => deliver evs sc
    end.
Proof. unfold deliver. rewrite foldl_app. reflexivity. Qed.

Lemma onMessage_entries rows status sc :
  entriesList (onMessage (MsgEntries (Some rows) status) sc) = renderItem <$> rows
  ∧ packButton_disabled (onMessage (MsgEntries (Some rows) status) sc)
    = Nat.eqb (length rows) 0
  ∧ statusLine_textContent (onMessage (MsgEntries (Some rows) status) sc)
    = default "" status.
Proof. destruct status as [[|c text]|]; repeat split; reflexivity. Qed.

Lemma deliver_last evs sc rows status :
  last (refreshes evs) = Some (rows, status) →
  entriesList (deliver evs sc) = renderItem <$> rows
  ∧ packButton_disabled (deliver evs sc) = Nat.eqb (length rows) 0
  ∧ statusLine_textContent (deliver evs sc) = default "" status.
Proof.
  induction evs as [|ev evs IH] using rev_ind; [discriminate|].
  rewrite refreshes_app, deliver_snoc.
  destruct ev as [text items|text|text|rows' status'|text|title text]; simpl;
    rewrite ?app_nil_r; try exact IH.
  rewrite last_snoc. intros [= -> ->]. apply onMessage_entries.
Qed.

(** X23: a panel that was given everything the provider posted shows
    the registry: whatever happened to the extension since its
    activation, when a panel is attached its list has one item per
    entry of the registry, in the order of the registry, and its
    button [Pack All] is disabled exactly when the registry is
    empty. *)
Theorem the_panel_shows_the_registry
    (d : Disk) (actions : list Action) (saved : option (list Shown)) :
  view (provider (run actions (activated d))) = true →
  entriesList (deliver (emitted (provider (run actions (activated d)))) (loaded saved))
  = renderItem <$> snapshot (provider (run actions (activated d)))
  ∧ (packButton_disabled
       (deliver (emitted (provider (run actions (activated d)))) (loaded saved)) = true
     ↔ entries (provider (run actions (activated d))) = []).
Proof.
  intros Hview.
  assert (informed (provider (run actions (activated d)))) as Hinformed
    by (apply informed_run; intros Hv; discriminate Hv).
  destruct (Hinformed Hview) as [status Hlast].
  destruct (deliver_last _ (loaded saved) _ _ Hlast) as (Hlist & Hbutton & _).
  split; [exact Hlist|]. rewrite Hbutton.
  unfold snapshot, JsMap.values. rewrite !length_fmap, Nat.eqb_eq.
  split; [apply nil_length_inv|intros ->; reflexivity].
Qed.

Lemma panel_shows_witness :
  entriesList
    (deliver (emitted (provider (run Demo2.session (activated Demo.disk0)))) (loaded None))
  = renderItem <$> snapshot (provider (run Demo2.session (activated Demo.disk0))).
Proof.
  apply (the_panel_shows_the_registry Demo.disk0 Demo2.session None).
  vm_compute. reflexivity.
Defined.

(** ** A click on the remove button of a row *)

Lemma filter_delete (m : list (string * Entry)) i k e :
  NoDup m.*1 → m !! i = Some (k, e) →
  filter (fun kv : string * Entry => kv.1 ≠ k) m = delete i m.
Proof.
  revert i. induction m as [|[k' e'] m IH]; intros i Hnd Hi; [discriminate|].
  rewrite fmap_cons in Hnd. apply NoDup_cons in Hnd as [Hhead Hnd].
  destruct i as [|i]; simpl in Hi.
  - injection Hi as -> ->. rewrite filter_cons_False by (simpl; tauto).
    simpl. apply (delete_absent k m Hhead).
  - assert (k' ≠ k) as Hne.
    { intros ->. apply Hhead. apply list_elem_of_fmap. exists (k, e).
      split; [reflexivity|]. apply (list_elem_of_lookup_2 _ i), Hi. }
    rewrite filter_cons_True by (simpl; exact Hne).
    simpl. f_equal. apply IH; assumption.
Qed.

(** X24: a click on the remove button of a row, from the panel to the
    provider and back. With a panel that shows a registry of distinct
    keys, a click on the button of the row at [i], whose key is not
    empty, makes the script ask for the removal of that key; the
    provider then drops the entry at [i] and no other, and posts the new
    snapshot without a status; and the panel given that post shows the
    list it showed without the row at [i]. *)
Theorem a_click_on_remove_takes_that_row_away
    (h : Host) (st : State) (sc : Script) (i : nat) (k : string) (e : Entry) :
  wf (entries st) → view st = true →
  entriesList sc = renderItem <$> snapshot st →
  entries st !! i = Some (k, e) → k ≠ "" →
  posted (handle sc (ClickRemove i)) = posted sc ++ [PostRemove k]
  ∧ entries (onDidReceiveMessage st (h, MsgRemove k)) = delete i (entries st)
  ∧ emitted (onDidReceiveMessage st (h, MsgRemove k))
    = emitted st
      ++ [Provider.postMessage (snapshot (onDidReceiveMessage st (h, MsgRemove k))) None]
  ∧ entriesList
      (deliver [Provider.postMessage (snapshot (onDidReceiveMessage st (h, MsgRemove k))) None]
         (handle sc (ClickRemove i)))
    = delete i (entriesList sc).
Proof.
  intros [Hnd Hkeyed] Hview Hlist Hi Hk.
  assert (key e = k) as Hkey
    by (apply Hkeyed, (list_elem_of_lookup_2 _ i), Hi).
  assert (entries (removeEntry k st) = delete i (entries st)) as Hentries
    by (rewrite removeEntry_entries; apply (filter_delete _ i k e Hnd Hi)).
  assert (JsMap.has k (entries st) = true) as Hhas.
  { apply has_true. apply list_elem_of_fmap. exists (k, e).
    split; [reflexivity|apply (list_elem_of_lookup_2 _ i), Hi]. }
  split; [|split; [exact Hentries|split]].
  - simpl. unfold onRemoveClick. rewrite Hlist.
    unfold snapshot, JsMap.values. rewrite !list_lookup_fmap, Hi. simpl.
    rewrite Hkey. destruct k; [congruence|reflexivity].
  - change (onDidReceiveMessage st (h, MsgRemove k)) with (removeEntry k st).
    assert (removeEntry k st
            = notifyEntries None
                (with_entries (filter (fun kv : string * Entry => kv.1 ≠ k) (entries st)) st))
      as -> by (unfold removeEntry, JsMap.delete; rewrite Hhas; reflexivity).
    unfold notifyEntries. simpl. rewrite Hview. reflexivity.
  - change (onDidReceiveMessage st (h, MsgRemove k)) with (removeEntry k st).
    cbn [deliver foldl].
    destruct (onMessage_entries (snapshot (removeEntry k st)) None
                (handle sc (ClickRemove i))) as [-> _].
    unfold snapshot, JsMap.values. rewrite Hentries, Hlist.
    unfold snapshot, JsMap.values. rewrite !list_fmap_delete. reflexivity.
Qed.

Lemma click_on_remove_witness :
  posted (handle Demo2.panelTwo (ClickRemove 0)) = [PostRemove "file:///w/a.py"]
  ∧ entries (onDidReceiveMessage Demo.two
               (Demo.hostOn Demo.disk0, MsgRemove "file:///w/a.py"))
    = [("file:///w/d", Demo.entryD)].
Proof.
  destruct (a_click_on_remove_takes_that_row_away (Demo.hostOn Demo.disk0) Demo.two
              Demo2.panelTwo 0 "file:///w/a.py" Demo.entryA) as (Hposted & Hentries & _).
  - split.
    + vm_compute. repeat constructor; rewrite ?not_elem_of_cons, ?elem_of_nil;
        intuition discriminate.
    + intros k e Hin. vm_compute in Hin.
      apply elem_of_cons in Hin as [[= -> ->]|Hin]; [reflexivity|].
      apply list_elem_of_singleton in Hin as [= -> ->]. reflexivity.
  - reflexivity.
  - vm_compute. reflexivity.
  - vm_compute. reflexivity.
  - discriminate.
  - split; [exact Hposted|exact Hentries].
Defined.

End PanelAndProvider.
